(** * Verification of the YuJian-Lab real-time presence hub

    Shallow embeddings of the TypeScript / JavaScript sources of the hub:
    - [BoundedScheduler]  : src/broadcast-scheduler.ts (bounded queue with
                            displacement on overflow);
    - [HubScheduler]      : the websocket BroadcastScheduler (sort, batch,
                            group by type, merged envelopes, fan-out);
    - [Router]            : src/message-router.js (reserved types);
    - [Detector]          : change-detector.ts (status priority, health
                            levels and alerts);
    - [Client]            : the browser WebSocketClient (open / close /
                            reconnect / message handling). *)

From stdpp Require Import base list gmap strings.
From Stdlib Require Import ZArith QArith Qabs Lia Lqa Sorted.
From Stdlib Require Ascii.

Set Warnings "-register-all".
Open Scope Z_scope.

(** JavaScript [Array.prototype.findIndex], with [None] for [-1]. *)
Fixpoint findIndex {A} (p : A -> bool) (l : list A) : option nat :=
  match l with
  | [] => None
  | x :: l' => if p x then Some 0%nat else option_map S (findIndex p l')
  end.

(** [arr.splice(i, 0, x)] for [i] within bounds. *)
Definition splice_insert {A} (i : nat) (x : A) (l : list A) : list A :=
  take i l ++ x :: drop i l.

(* ===================================================================== *)
(** ** src/broadcast-scheduler.ts *)
(* ===================================================================== *)

Module BoundedScheduler.

(** ['high' | 'medium' | 'low'] *)
Inductive Priority := high | medium | low.

Definition Priority_eqb (a b : Priority) : bool :=
  match a, b with
  | high, high | medium, medium | low, low => true
  | _, _ => false
  end.

Record BroadcastMessage := mkMsg {
  id : string;
  type : string;
  content : string;
  priority : Priority;
  timestamp : Z
}.

(** [const priorityOrder = { high: 0, medium: 1, low: 2 }] *)
Definition priorityOrder (p : Priority) : nat :=
  match p with high => 0 | medium => 1 | low => 2 end%nat.

Record Scheduler := mkScheduler {
  queue : list BroadcastMessage;
  maxQueueSize : Z
}.

Definition DEFAULT_MAX_QUEUE_SIZE : Z := 1000.

(** [constructor(options)]: [options.maxQueueSize ?? DEFAULT_MAX_QUEUE_SIZE]. *)
Definition create (maxQueueSizeOpt : option Z) : Scheduler :=
  {| queue := [];
     maxQueueSize := default DEFAULT_MAX_QUEUE_SIZE maxQueueSizeOpt |}.

(** [insertByPriority]: insert before the first message of strictly
    larger [priorityOrder], or push at the end. *)
Definition insertByPriority (message : BroadcastMessage)
    (q : list BroadcastMessage) : list BroadcastMessage :=
  match findIndex (fun m => Nat.ltb (priorityOrder (priority message))
                                    (priorityOrder (priority m))) q with
  | None => q ++ [message]
  | Some insertIndex => splice_insert insertIndex message q
  end.

(** [enqueue(message): boolean], returning the new queue as well.
    [this.queue.splice(i, 1)] is stdpp's list [delete i]. *)
Definition enqueue_queue (maxQ : Z) (message : BroadcastMessage)
    (q : list BroadcastMessage) : bool * list BroadcastMessage :=
  if Z.of_nat (length q) >=? maxQ then
    let lowPriorityIndex := findIndex (fun m => Priority_eqb (priority m) low) q in
    match lowPriorityIndex, Priority_eqb (priority message) low with
    | Some i, false => (true, insertByPriority message (delete i q))
    | _, true => (false, q)
    | None, false =>
        let mediumPriorityIndex :=
          findIndex (fun m => Priority_eqb (priority m) medium) q in
        match mediumPriorityIndex, Priority_eqb (priority message) high with
        | Some j, true => (true, insertByPriority message (delete j q))
        | _, _ => (false, q)
        end
    end
  else (true, insertByPriority message q).

Definition enqueue (s : Scheduler) (message : BroadcastMessage)
    : bool * Scheduler :=
  let '(ok, q') := enqueue_queue (maxQueueSize s) message (queue s) in
  (ok, {| queue := q'; maxQueueSize := maxQueueSize s |}).

(** The states after each enqueue of a sequence of calls. *)
Fixpoint enqueue_trace (s : Scheduler) (ms : list BroadcastMessage)
    : list Scheduler :=
  match ms with
  | [] => []
  | m :: ms' => let s' := snd (enqueue s m) in s' :: enqueue_trace s' ms'
  end.

Definition rank (m : BroadcastMessage) : nat := priorityOrder (priority m).

(** The queue is ordered by priority: high, then medium, then low. *)
Definition prio_sorted (q : list BroadcastMessage) : Prop :=
  StronglySorted (fun a b => (rank a <= rank b)%nat) q.

(** [m] sits after every queued message of the same or higher priority
    (those were enqueued earlier) and before every lower-priority one;
    removing [m] gives back [base]. *)
Definition placed_in_priority_order (m : BroadcastMessage)
    (base q' : list BroadcastMessage) : Prop :=
  exists l1 l2, base = l1 ++ l2 /\ q' = l1 ++ m :: l2 /\
    Forall (fun y => (rank y <= rank m)%nat) l1 /\
    Forall (fun y => (rank m < rank y)%nat) l2.


(** The full-queue admission outcome of step 1 / step 3 of the
    displacement rule: [x] is the first queued message of priority [P],
    it is evicted and [m] is inserted in priority order; the enqueue is
    accepted and the queue keeps [maxQ] elements. *)
Definition displaces (P : Priority) (maxQ : Z) (m : BroadcastMessage)
    (q : list BroadcastMessage) (r : bool * list BroadcastMessage) : Prop :=
  exists l1 x l2, q = l1 ++ x :: l2 /\ priority x = P /\
    Forall (fun y => priority y <> P) l1 /\
    fst r = true /\ placed_in_priority_order m (l1 ++ l2) (snd r) /\
    prio_sorted (snd r) /\ Z.of_nat (length (snd r)) = maxQ.
End BoundedScheduler.

(* ===================================================================== *)
(** ** Wire model: JSON values and server envelopes *)
(* ===================================================================== *)

Module Wire.

(** JSON values as produced by [JSON.parse] / consumed by
    [JSON.stringify]; [undefined] is a separate case because property
    access on an object may yield it. *)
Inductive json :=
| JUndefined
| JNull
| JBool (b : bool)
| JNum (n : Z)
| JStr (s : string)
| JArr (items : list json)
| JObj (fields : list (string * json)).

(** JavaScript property read [v.k] on a parsed value: [None] models the
    [TypeError] thrown when [v] is [null] or [undefined]. *)
Definition get_prop (v : json) (k : string) : option json :=
  match v with
  | JNull | JUndefined => None
  | JObj fs =>
      Some (match List.find (fun kv => String.eqb (fst kv) k) fs with
            | Some kv => snd kv
            | None => JUndefined
            end)
  | _ => Some JUndefined
  end.

(** JavaScript truthiness of a value. *)
Definition truthy (v : json) : bool :=
  match v with
  | JUndefined | JNull => false
  | JBool b => b
  | JNum n => negb (Z.eqb n 0)
  | JStr s => negb (String.eqb s "")
  | JArr _ | JObj _ => true
  end.

(** [ServerMessage]: [{ id, type, timestamp, direction, event, data }]. *)
Record ServerMessage := mkServerMessage {
  id : string;
  type : string;
  timestamp : Z;
  direction : string;
  event : string;
  data : json
}.

End Wire.

(* ===================================================================== *)
(** ** The hub's BroadcastScheduler (websocket/broadcast-scheduler.ts) *)
(* ===================================================================== *)

Module HubScheduler.
Import Wire.

(** [MessagePriority = 'high' | 'normal' | 'low'] *)
Inductive MessagePriority := high | normal | low.

(** [BroadcastTask]: [{ type, event, data, priority, timestamp }];
    message types and event names are the source's string literals. *)
Record BroadcastTask := mkTask {
  task_type : string;
  task_event : string;
  task_data : json;
  task_priority : MessagePriority;
  task_timestamp : Z
}.

(** The connection metadata the scheduler reads when sending. *)
Record Connection := mkConn {
  conn_id : string;
  isAlive : bool;
  socket_open : bool   (* [socket.readyState === WebSocket.OPEN] *)
}.

Record SchedulerState := mkState {
  messageQueue : list BroadcastTask;
  isProcessing : bool;
  broadcastBatchSize : Z
}.

(** [priorityWeight = { high: 0, normal: 1, low: 2 }] *)
Definition priorityWeight (p : MessagePriority) : Z :=
  match p with high => 0 | normal => 1 | low => 2 end.

(** The comparator of [sortQueue]. *)
Definition compareTasks (a b : BroadcastTask) : Z :=
  let priorityDiff := priorityWeight (task_priority a) - priorityWeight (task_priority b) in
  if negb (Z.eqb priorityDiff 0) then priorityDiff
  else task_timestamp a - task_timestamp b.

(** [Array.prototype.sort] is stable (ES2019); for a consistent
    comparator its result is the stable sorted permutation, computed
    here by stable insertion sort. *)
Fixpoint insert_sorted (x : BroadcastTask) (l : list BroadcastTask) : list BroadcastTask :=
  match l with
  | [] => [x]
  | y :: l' => if Z.leb (compareTasks x y) 0 then x :: y :: l'
               else y :: insert_sorted x l'
  end.

Definition sortQueue (q : list BroadcastTask) : list BroadcastTask :=
  fold_right insert_sorted [] q.

(** [this.config.broadcastBatchSize || 100] *)
Definition effectiveBatchSize (n : Z) : Z := if Z.eqb n 0 then 100 else n.

(** [splice(0, n)] removes (and returns) the first [max 0 n] elements. *)
Definition splice_prefix {A} (n : Z) (l : list A) : list A * list A :=
  (take (Z.to_nat n) l, drop (Z.to_nat n) l).

(** [groupByType]: a [Map] keeps keys in first-insertion order. *)
Fixpoint group_add (t : BroadcastTask) (gs : list (string * list BroadcastTask))
    : list (string * list BroadcastTask) :=
  match gs with
  | [] => [(task_type t, [t])]
  | (k, ts) :: gs' =>
      if String.eqb k (task_type t) then (k, ts ++ [t]) :: gs'
      else (k, ts) :: group_add t gs'
  end.

Definition groupByType (tasks : list BroadcastTask) : list (string * list BroadcastTask) :=
  fold_left (fun gs t => group_add t gs) tasks [].

(** One entry of [data.events] of a [batch_update]. *)
Definition batch_entry (t : BroadcastTask) : json :=
  JObj [("event", JStr (task_event t)); ("data", task_data t);
        ("timestamp", JNum (task_timestamp t))].

(** [createMergedMessage(type, tasks)]; [uuid] and [now] stand for
    [generateUUID()] and [Date.now()]. *)
Definition createMergedMessage (uuid : string) (now : Z) (type : string)
    (tasks : list BroadcastTask) : ServerMessage :=
  match tasks with
  | [t] => {| id := uuid; Wire.type := type; timestamp := now;
              direction := "server-to-client";
              event := task_event t; data := task_data t |}
  | _ => {| id := uuid; Wire.type := type; timestamp := now;
            direction := "server-to-client";
            event := "batch_update";
            data := JObj [("events", JArr (map batch_entry tasks))] |}
  end.

(** [sendToConnection]: the socket write happens only for a live, open
    connection; [(connection id, frame)] is what is written. *)
Definition sendToConnection (c : Connection) (serialized : string)
    : list (string * string) :=
  if isAlive c && socket_open c then [(conn_id c, serialized)] else [].

(** What one iteration of the loop of [broadcastBatch] does for a group. *)
Record GroupOutput := mkGroupOutput {
  out_type : string;
  out_tasks : list BroadcastTask;
  out_message : ServerMessage;
  out_serialized : string;
  out_writes : list (string * string)
}.

Section Broadcast.
(** [connectionManager.getConnectionsBySubscription], [JSON.stringify],
    [generateUUID] (the [k]-th call) and [Date.now]. *)
Variable getConnectionsBySubscription : string -> list Connection.
Variable stringify : ServerMessage -> string.
Variable uuid : nat -> string.
Variable now : Z.

Fixpoint broadcast_groups (k : nat) (groups : list (string * list BroadcastTask))
    : list GroupOutput :=
  match groups with
  | [] => []
  | (type, typeTasks) :: groups' =>
      let connections := getConnectionsBySubscription type in
      match connections with
      | [] => broadcast_groups k groups'
      | _ =>
          let mergedMessage := createMergedMessage (uuid k) now type typeTasks in
          let serialized := stringify mergedMessage in
          {| out_type := type; out_tasks := typeTasks;
             out_message := mergedMessage; out_serialized := serialized;
             out_writes := flat_map (fun c => sendToConnection c serialized) connections |}
          :: broadcast_groups (S k) groups'
      end
  end.

Definition broadcastBatch (tasks : list BroadcastTask) : list GroupOutput :=
  match tasks with
  | [] => []
  | _ => broadcast_groups 0 (groupByType tasks)
  end.

(** [processQueue]: the batch drained, the outputs, the new state and
    whether another drain is scheduled ([setImmediate]). *)
Definition processQueue (s : SchedulerState)
    : list BroadcastTask * list GroupOutput * SchedulerState * bool :=
  if isProcessing s || Nat.eqb (length (messageQueue s)) 0 then ([], [], s, false)
  else
    let sorted := sortQueue (messageQueue s) in
    let batchSize := effectiveBatchSize (broadcastBatchSize s) in
    let '(batch, rest) := splice_prefix batchSize sorted in
    let outs := broadcastBatch batch in
    (batch, outs,
     {| messageQueue := rest; isProcessing := false;
        broadcastBatchSize := broadcastBatchSize s |},
     negb (Nat.eqb (length rest) 0)).
End Broadcast.

(** The timestamps listed in [data.events] of a [batch_update] envelope. *)
Definition entry_timestamp (v : json) : option Z :=
  match get_prop v "timestamp" with Some (JNum n) => Some n | _ => None end.

Definition batch_event_timestamps (m : ServerMessage) : list Z :=
  match get_prop (data m) "events" with
  | Some (JArr es) => omap entry_timestamp es
  | _ => []
  end.

Fixpoint nondecreasing (l : list Z) : bool :=
  match l with
  | x :: ((y :: _) as l') => Z.leb x y && nondecreasing l'
  | _ => true
  end.

(** Order of the drained tasks: by priority weight, then timestamp. *)
Definition task_le (a b : BroadcastTask) : Prop :=
  (priorityWeight (task_priority a) < priorityWeight (task_priority b)) \/
  (priorityWeight (task_priority a) = priorityWeight (task_priority b) /\
   task_timestamp a <= task_timestamp b).


(** Lookup of a key in the [Map] built by [groupByType]. *)
Fixpoint assoc (k : string) (gs : list (string * list BroadcastTask))
    : option (list BroadcastTask) :=
  match gs with
  | [] => None
  | (k', v) :: gs' => if String.eqb k' k then Some v else assoc k gs'
  end.

Definition tasks_of_type (k : string) (l : list BroadcastTask) : list BroadcastTask :=
  List.filter (fun t => String.eqb (task_type t) k) l.

(** [gs] groups [l] by type: distinct keys, and the group of every type
    is the sub-list of [l] of that type, in order (absent when empty). *)
Definition groups_of (l : list BroadcastTask) (gs : list (string * list BroadcastTask)) : Prop :=
  NoDup (map fst gs) /\
  forall k, assoc k gs = match tasks_of_type k l with [] => None | ts => Some ts end.

(** [enqueue(task)]: push, and a [high] task calls [processQueue] at
    once. The result is the drained batch, the group outputs, the new
    state and whether a further drain was scheduled. *)
Definition enqueue (conns : string -> list Connection) (stringify : ServerMessage -> string)
    (uuid : nat -> string) (now : Z) (s : SchedulerState) (task : BroadcastTask)
    : list BroadcastTask * list GroupOutput * SchedulerState * bool :=
  let s1 := mkState (messageQueue s ++ [task]) (isProcessing s) (broadcastBatchSize s) in
  match task_priority task with
  | high => processQueue conns stringify uuid now s1
  | _ => ([], [], s1, false)
  end.

(** The chain of drains started by one [processQueue] call, each one
    rescheduling the next with [setImmediate] while tasks remain, when
    nothing is enqueued in between; at most [fuel] drains. The batches. *)
Fixpoint drain_all (conns : string -> list Connection) (stringify : ServerMessage -> string)
    (uuid : nat -> string) (now : Z) (fuel : nat) (s : SchedulerState)
    : list (list BroadcastTask) * SchedulerState :=
  match fuel with
  | O => ([], s)
  | S fuel' =>
      let '(batch, _, s', again) := processQueue conns stringify uuid now s in
      if again then
        let '(batches, s'') := drain_all conns stringify uuid now fuel' s' in
        (batch :: batches, s'')
      else ([batch], s')
  end.
End HubScheduler.

(* ===================================================================== *)
(** ** Concrete inputs (spec scenarios and edge cases) *)
(* ===================================================================== *)

Module Scenarios.

(** Spec scenario 1: [maxQueueSize = 3], three [low] tasks, then a
    [high] one, then a fourth [low] one. *)
Definition bmsg (n : string) (p : BoundedScheduler.Priority) (ts : Z)
    : BoundedScheduler.BroadcastMessage :=
  BoundedScheduler.mkMsg n "test" n p ts.

Definition L1 := bmsg "L1" BoundedScheduler.low 1.
Definition L2 := bmsg "L2" BoundedScheduler.low 2.
Definition L3 := bmsg "L3" BoundedScheduler.low 3.
Definition H1 := bmsg "H1" BoundedScheduler.high 4.
Definition L4 := bmsg "L4" BoundedScheduler.low 5.

Definition scenario1 := [L1; L2; L3; H1; L4].

(** Hub scheduler inputs: one subscriber that is alive and open. *)
Definition one_subscriber (type : string) : list HubScheduler.Connection :=
  [HubScheduler.mkConn "conn-1" true true].

(** A stand-in for [JSON.stringify] (its exact text is irrelevant). *)
Definition stringify_event (m : Wire.ServerMessage) : string := Wire.event m.

Definition uuid_const (k : nat) : string := "uuid".

(** Two [status] tasks: a [normal] one at t=1 and a [high] one at t=5. *)
Definition mixed_priority_queue : HubScheduler.SchedulerState :=
  HubScheduler.mkState
    [HubScheduler.mkTask "status" "status_update" Wire.JNull HubScheduler.normal 1;
     HubScheduler.mkTask "status" "health_alert" Wire.JNull HubScheduler.high 5]
    false 100.

(** A queue of one task with [broadcastBatchSize = 0]. *)
Definition zero_batch_size_queue : HubScheduler.SchedulerState :=
  HubScheduler.mkState
    [HubScheduler.mkTask "stats" "stats_update" Wire.JNull HubScheduler.normal 7]
    false 0.

End Scenarios.

(* ===================================================================== *)
(** ** src/message-router.js *)
(* ===================================================================== *)

Module Router.

(** Callbacks are opaque functions; they are identified by a number. *)
Definition Callback := nat.

(** [static DEFAULT_MAX_MESSAGE_SIZE = 64 * 1024] *)
Definition DEFAULT_MAX_MESSAGE_SIZE : Z := 64 * 1024.

(** [static RESERVED_TYPES = ['error']] *)
Definition RESERVED_TYPES : list string := ["error"].

(** [this.subscribers]: a [Map] from type to a [Set] of callbacks; a
    [Set] is kept as its list of members in insertion order. *)
Record MessageRouter := mkRouter {
  maxMessageSize : Z;
  subscribers : gmap string (list Callback)
}.

(** [new MessageRouter(options)]: [options.maxMessageSize ?? default]. *)
Definition create (maxMessageSize_opt : option Z) : MessageRouter :=
  mkRouter (default DEFAULT_MAX_MESSAGE_SIZE maxMessageSize_opt) ∅.

(** [Array.prototype.includes] on strings. *)
Definition includes (l : list string) (s : string) : bool :=
  existsb (String.eqb s) l.

(** [Set.prototype.add] and [Set.prototype.delete]. *)
Definition set_add (cb : Callback) (s : list Callback) : list Callback :=
  if existsb (Nat.eqb cb) s then s else s ++ [cb].
Definition set_delete (cb : Callback) (s : list Callback) : list Callback :=
  filter (fun c => negb (Nat.eqb c cb)) s.

(** The object returned by [subscribe]: [{ success: false, error }] or
    [{ success: true, unsubscribe }], the closure capturing [type] and
    [callback]. *)
Inductive SubscribeResult :=
| SubscribeFailed (error : string)
| SubscribeOk (type : string) (callback : Callback).

Definition reserved_error (type : string) : string :=
  String.append "Cannot subscribe to reserved type '"
    (String.append type "'. This type is reserved for system internal use.").

Definition subscribe (r : MessageRouter) (type : string) (callback : Callback)
    : SubscribeResult * MessageRouter :=
  if includes RESERVED_TYPES type then (SubscribeFailed (reserved_error type), r)
  else
    let s := default [] (subscribers r !! type) in
    (SubscribeOk type callback,
     mkRouter (maxMessageSize r) (<[type := set_add callback s]> (subscribers r))).

(** Calling the [unsubscribe] closure of [subscribe type callback]:
    [this.subscribers.get(type)?.delete(callback)]. *)
Definition unsubscribe (r : MessageRouter) (type : string) (callback : Callback)
    : MessageRouter :=
  match subscribers r !! type with
  | Some s => mkRouter (maxMessageSize r) (<[type := set_delete callback s]> (subscribers r))
  | None => r
  end.

(** [publish(message)], given the computed [calculateMessageSize(message)]:
    the callbacks invoked, or the size error. The router is unchanged. *)
Definition publish (r : MessageRouter) (type : string) (messageSize : Z)
    : option (list Callback) :=
  if Z.ltb (maxMessageSize r) messageSize then None
  else Some (default [] (subscribers r !! type)).

(** Client-driven operations on a router. *)
Inductive RouterOp :=
| OpSubscribe (type : string) (callback : Callback)
| OpUnsubscribe (type : string) (callback : Callback)
| OpPublish (type : string) (messageSize : Z).

Definition step (r : MessageRouter) (op : RouterOp) : MessageRouter :=
  match op with
  | OpSubscribe type cb => snd (subscribe r type cb)
  | OpUnsubscribe type cb => unsubscribe r type cb
  | OpPublish _ _ => r
  end.

Definition run (r : MessageRouter) (ops : list RouterOp) : MessageRouter :=
  fold_left step ops r.


(** [getSubscriberCount(type)]: [this.subscribers.get(type)?.size ?? 0]. *)
Definition getSubscriberCount (r : MessageRouter) (type : string) : nat :=
  length (default [] (subscribers r !! type)).

End Router.

(* ===================================================================== *)
(** ** change-detector.ts *)
(* ===================================================================== *)

Module Detector.

(** [a > b] on numbers. *)
Definition Qgtb (a b : Q) : bool := negb (Qle_bool a b).

Record ChangeDetectorConfig := mkConfig {
  checkInterval : Z;
  cpuThreshold : Q;
  memoryThreshold : Q;
  diskThreshold : Q
}.

(** [{ checkInterval: 1000, cpuThreshold: 80, memoryThreshold: 80,
    diskThreshold: 90, ...config }] with an empty [config]. *)
Definition default_config : ChangeDetectorConfig := mkConfig 1000 80 80 90.

(** [SystemStatus]. *)
Record SystemStatus := mkStatus {
  systemOnline : bool;
  cpuUsage : Q;
  memoryUsage : Q;
  diskUsage : Q;
  activeConnections : Q;
  uptime : Q;
  status_timestamp : Q;
  version : string
}.

(** The value of a status field, as read by [oldStatus[field]]. *)
Inductive FieldValue := FNum (q : Q) | FBool (b : bool) | FStr (s : string) | FUndef.

Definition status_get (st : SystemStatus) (field : string) : FieldValue :=
  if String.eqb field "systemOnline" then FBool (systemOnline st)
  else if String.eqb field "cpuUsage" then FNum (cpuUsage st)
  else if String.eqb field "memoryUsage" then FNum (memoryUsage st)
  else if String.eqb field "diskUsage" then FNum (diskUsage st)
  else if String.eqb field "activeConnections" then FNum (activeConnections st)
  else if String.eqb field "uptime" then FNum (uptime st)
  else if String.eqb field "timestamp" then FNum (status_timestamp st)
  else if String.eqb field "version" then FStr (version st)
  else FUndef.

(** Strict inequality [!==]. *)
Definition value_neq (a b : FieldValue) : bool :=
  match a, b with
  | FNum x, FNum y => negb (Qeq_bool x y)
  | FBool x, FBool y => negb (Bool.eqb x y)
  | FStr x, FStr y => negb (String.eqb x y)
  | FUndef, FUndef => false
  | _, _ => true
  end.

(** [Change]: [{ field, oldValue, newValue, delta? }]. *)
Record Change := mkChange {
  change_field : string;
  oldValue : FieldValue;
  newValue : FieldValue;
  delta : option Q
}.

Definition fieldsToMonitor : list string :=
  ["cpuUsage"; "memoryUsage"; "diskUsage"; "activeConnections"; "systemOnline"].

(** One iteration of the loop of [detectStatusChanges]. *)
Definition detect_field (oldStatus currentStatus : SystemStatus) (field : string)
    : list Change :=
  let oldValue := status_get oldStatus field in
  let newValue := status_get currentStatus field in
  if value_neq oldValue newValue then
    [mkChange field oldValue newValue
       (match oldValue, newValue with
        | FNum o, FNum n => Some (n - o)%Q
        | _, _ => None
        end)]
  else [].

Definition detectStatusChanges (oldStatus currentStatus : SystemStatus) : list Change :=
  List.flat_map (detect_field oldStatus currentStatus) fieldsToMonitor.

Definition criticalFields : list string := ["cpuUsage"; "memoryUsage"].

(** [(c.newValue as number) > threshold]: a boolean compares as 0 or 1,
    anything else is [NaN] and compares false. *)
Definition gt_threshold (v : FieldValue) (threshold : Q) : bool :=
  match v with
  | FNum q => Qgtb q threshold
  | FBool b => Qgtb (if b then 1 else 0) threshold
  | _ => false
  end.

Definition calculateStatusPriority (cfg : ChangeDetectorConfig) (changes : list Change)
    : HubScheduler.MessagePriority :=
  let hasCritical :=
    existsb (fun c =>
      if negb (Router.includes criticalFields (change_field c)) then false
      else
        let threshold := if String.eqb (change_field c) "cpuUsage"
                         then cpuThreshold cfg else memoryThreshold cfg in
        gt_threshold (newValue c) threshold) changes in
  if hasCritical then HubScheduler.high
  else if Nat.ltb 3 (length changes) then HubScheduler.normal
  else HubScheduler.low.

(** [getAlertLevel] returns ['critical'], ['warning'] or ['info']. *)
Inductive AlertLevel := info | warning | critical.

Definition AlertLevel_eqb (a b : AlertLevel) : bool :=
  match a, b with
  | info, info | warning, warning | critical, critical => true
  | _, _ => false
  end.

Definition getAlertLevel (value threshold : Q) : AlertLevel :=
  if Qgtb value (threshold + 15) then critical
  else if Qgtb value threshold then warning
  else info.

(** [HealthAlert] without its display [message] and [timestamp]. *)
Record HealthAlert := mkAlert {
  alert_level : AlertLevel;
  component : string;
  threshold : Q;
  currentValue : Q
}.

(** The [data] of the tasks the detector hands to the scheduler. *)
Inductive Payload :=
| StatusInitial (status : SystemStatus)
| StatusChanged (status : SystemStatus) (changes : list Change)
| HealthAlertData (alert : HealthAlert)
| HealthRecoveryData (component : string).

(** A call [this.broadcaster.broadcast(type, event, data, priority)]. *)
Record Broadcast := mkBroadcast {
  b_type : string;
  b_event : string;
  b_data : Payload;
  b_priority : HubScheduler.MessagePriority
}.

(** [checkStatusChange], given the result of [fetchCurrentStatus]:
    the broadcasts made and the new [lastStatus]. *)
Definition checkStatusChange (cfg : ChangeDetectorConfig)
    (lastStatus : option SystemStatus) (currentStatus : option SystemStatus)
    : list Broadcast * option SystemStatus :=
  match currentStatus with
  | None => ([], lastStatus)
  | Some cur =>
      match lastStatus with
      | None => ([mkBroadcast "status" "status_update" (StatusInitial cur) HubScheduler.normal],
                 Some cur)
      | Some old =>
          let changes := detectStatusChanges old cur in
          match changes with
          | [] => ([], Some cur)
          | _ => ([mkBroadcast "status" "status_update" (StatusChanged cur changes)
                     (calculateStatusPriority cfg changes)], Some cur)
          end
      end
  end.

(** An entry of [lastHealthStatus]: [{ value, level }]. *)
Record HealthRecord := mkHealth { hr_value : Q; hr_level : AlertLevel }.

Record HealthCheck := mkCheck {
  check_name : string;
  check_value : Q;
  check_threshold : Q
}.

Definition checks (cfg : ChangeDetectorConfig) (st : SystemStatus) : list HealthCheck :=
  [mkCheck "cpu" (cpuUsage st) (cpuThreshold cfg);
   mkCheck "memory" (memoryUsage st) (memoryThreshold cfg);
   mkCheck "disk" (diskUsage st) (diskThreshold cfg)].

(** One iteration of the loop of [checkHealthAlerts]. *)
Definition health_check_step (m : gmap string HealthRecord) (check : HealthCheck)
    : list Broadcast * gmap string HealthRecord :=
  let lastStatus := m !! check_name check in
  let currentLevel := getAlertLevel (check_value check) (check_threshold check) in
  let changed := match lastStatus with
                 | None => true
                 | Some r => negb (AlertLevel_eqb (hr_level r) currentLevel)
                 end in
  if changed then
    let out :=
      if negb (AlertLevel_eqb currentLevel info) then
        [mkBroadcast "health" "health_alert"
           (HealthAlertData (mkAlert currentLevel (check_name check)
                               (check_threshold check) (check_value check)))
           (if AlertLevel_eqb currentLevel critical then HubScheduler.high
            else HubScheduler.normal)]
      else match lastStatus with
           | Some r => if negb (AlertLevel_eqb (hr_level r) info)
                       then [mkBroadcast "health" "health_recovery"
                               (HealthRecoveryData (check_name check)) HubScheduler.normal]
                       else []
           | None => []
           end in
    (out, <[check_name check := mkHealth (check_value check) currentLevel]> m)
  else ([], m).

Definition checkHealthAlerts (cfg : ChangeDetectorConfig)
    (lastStatus : option SystemStatus) (m : gmap string HealthRecord)
    : list Broadcast * gmap string HealthRecord :=
  match lastStatus with
  | None => ([], m)
  | Some st =>
      fold_left (fun acc check =>
                   let '(outs, m) := acc in
                   let '(o, m') := health_check_step m check in
                   (outs ++ o, m'))
                (checks cfg st) ([], m)
  end.

(** The detector's state; [lastStats] and [checkStatsChange] touch
    neither [lastStatus] nor [lastHealthStatus] and are left out. *)
Record DetectorState := mkDetector {
  lastStatus : option SystemStatus;
  lastHealthStatus : gmap string HealthRecord
}.

(** One run of [checkAndBroadcast] on a fetched status sample. *)
Definition checkAndBroadcast (cfg : ChangeDetectorConfig) (s : DetectorState)
    (sample : SystemStatus) : list Broadcast * DetectorState :=
  let '(out1, last') := checkStatusChange cfg (lastStatus s) (Some sample) in
  let '(out2, health') := checkHealthAlerts cfg last' (lastHealthStatus s) in
  (out1 ++ out2, mkDetector last' health').

(** The broadcasts of each check, for a sequence of samples. *)
Fixpoint run (cfg : ChangeDetectorConfig) (s : DetectorState)
    (samples : list SystemStatus) : list (list Broadcast) :=
  match samples with
  | [] => []
  | st :: rest =>
      let '(outs, s') := checkAndBroadcast cfg s st in
      outs :: run cfg s' rest
  end.

(** The component a health broadcast is about. *)
Definition component_of (b : Broadcast) : option string :=
  match b_data b with
  | HealthAlertData a => Some (component a)
  | HealthRecoveryData c => Some c
  | _ => None
  end.

Definition health_events (name : string) (outs : list Broadcast) : list Broadcast :=
  filter (fun b => bool_decide (component_of b = Some name)) outs.

(** The health check named [name] in a sample. *)
Definition check_of (cfg : ChangeDetectorConfig) (st : SystemStatus) (name : string)
    : option HealthCheck :=
  List.find (fun c => String.eqb (check_name c) name) (checks cfg st).

End Detector.

(* ===================================================================== *)
(** ** The browser WebSocketClient *)
(* ===================================================================== *)

Module Client.
Import Wire.

(** [ConnectionState] *)
Inductive ConnectionState := disconnected | connecting | connected | reconnecting.

Definition ConnectionState_eqb (a b : ConnectionState) : bool :=
  match a, b with
  | disconnected, disconnected | connecting, connecting
  | connected, connected | reconnecting, reconnecting => true
  | _, _ => false
  end.

(** [ClientMessage]: [{ id, type, timestamp, action, payload? }]. *)
Record ClientMessage := mkClientMessage {
  cm_id : string;
  cm_type : string;
  cm_timestamp : Z;
  cm_action : string;
  cm_payload : option json
}.

(** The numeric options; the callbacks are the [Effect]s below. *)
Record Options := mkOptions {
  autoConnect : bool;
  reconnectInterval : Q;
  maxReconnectAttempts : Z;
  heartbeatInterval : Z;
  heartbeatTimeout : Z
}.

(** [DEFAULT_OPTIONS] *)
Definition DEFAULT_OPTIONS : Options := mkOptions true 3000 5 30000 60000.

(** The client's fields. [ws] is [null] ([None]) or a socket whose
    [readyState === WebSocket.OPEN] is the boolean. [reconnect_pending]
    is the delay of a [setTimeout] armed by [attemptReconnect] that has
    neither fired nor been cleared; [heartbeat_running] says whether the
    [setInterval] of [startHeartbeat] is armed. A [Set] is the list of
    its members in insertion order. *)
Record ClientState := mkClient {
  ws : option bool;
  state : ConnectionState;
  reconnectAttempts : Z;
  reconnect_pending : option Q;
  heartbeat_running : bool;
  lastPongTime : Z;
  messageQueue : list ClientMessage;
  subscriptions : list string;
  connectionId : option json
}.

Definition set_ws w s := mkClient w (state s) (reconnectAttempts s) (reconnect_pending s)
  (heartbeat_running s) (lastPongTime s) (messageQueue s) (subscriptions s) (connectionId s).
Definition set_state c s := mkClient (ws s) c (reconnectAttempts s) (reconnect_pending s)
  (heartbeat_running s) (lastPongTime s) (messageQueue s) (subscriptions s) (connectionId s).
Definition set_attempts n s := mkClient (ws s) (state s) n (reconnect_pending s)
  (heartbeat_running s) (lastPongTime s) (messageQueue s) (subscriptions s) (connectionId s).
Definition set_reconnect t s := mkClient (ws s) (state s) (reconnectAttempts s) t
  (heartbeat_running s) (lastPongTime s) (messageQueue s) (subscriptions s) (connectionId s).
Definition set_heartbeat h s := mkClient (ws s) (state s) (reconnectAttempts s) (reconnect_pending s)
  h (lastPongTime s) (messageQueue s) (subscriptions s) (connectionId s).
Definition set_pong t s := mkClient (ws s) (state s) (reconnectAttempts s) (reconnect_pending s)
  (heartbeat_running s) t (messageQueue s) (subscriptions s) (connectionId s).
Definition set_queue q s := mkClient (ws s) (state s) (reconnectAttempts s) (reconnect_pending s)
  (heartbeat_running s) (lastPongTime s) q (subscriptions s) (connectionId s).
Definition set_subscriptions l s := mkClient (ws s) (state s) (reconnectAttempts s) (reconnect_pending s)
  (heartbeat_running s) (lastPongTime s) (messageQueue s) l (connectionId s).
Definition set_connectionId c s := mkClient (ws s) (state s) (reconnectAttempts s) (reconnect_pending s)
  (heartbeat_running s) (lastPongTime s) (messageQueue s) (subscriptions s) c.

(** [new WebSocketClient(options)] before [autoConnect]; [now] is the
    [Date.now()] of [lastPongTime]'s initialiser. *)
Definition initial (now : Z) : ClientState :=
  mkClient None disconnected 0 None false now [] [] None.

(** What the client does to the outside, in order: frames written with
    [ws.send(JSON.stringify(m))], [ws.close()], the option callbacks and
    the arming of the reconnect timer. *)
Inductive Effect :=
| Sent (m : ClientMessage)
| CloseSocket
| OnOpen
| OnClose
| OnError (message : string)
| OnMessage (message : json)
| OnReconnecting (attempt : Z)
| ScheduleReconnect (delay : Q).

(** The methods run in a state monad that also records effects. *)
Definition M (A : Type) : Type := ClientState -> A * ClientState * list Effect.

#[global] Instance M_ret : MRet M := fun A a s => (a, s, []).
#[global] Instance M_bind : MBind M := fun A B k m s =>
  let '(a, s1, e1) := m s in
  let '(b, s2, e2) := k a s1 in
  (b, s2, e1 ++ e2).

Definition get : M ClientState := fun s => (s, s, []).
Definition modify (f : ClientState -> ClientState) : M unit := fun s => (tt, f s, []).
Definition emit (e : Effect) : M unit := fun s => (tt, s, [e]).

(** [Math.min] *)
Definition Math_min (a b : Q) : Q := if Qle_bool a b then a else b.

(** [send(message)]. *)
Definition send (message : ClientMessage) : M bool :=
  s ← get;
  if ConnectionState_eqb (state s) connected && bool_decide (ws s = Some true)
  then emit (Sent message);; mret true
  else modify (set_queue (messageQueue s ++ [message]));; mret false.

(** [ping()] *)
Definition ping (now : Z) (uuid : string) : M unit :=
  _ ← send (mkClientMessage uuid "system" now "ping" None); mret tt.

(** [cleanup()] *)
Definition cleanup : M unit :=
  modify (set_reconnect None);; modify (set_heartbeat false).

(** [attemptReconnect()] *)
Definition attemptReconnect (opts : Options) : M unit :=
  s ← get;
  if Z.leb (maxReconnectAttempts opts) (reconnectAttempts s) then
    modify (set_state disconnected);;
    emit (OnError "Max reconnection attempts reached")
  else
    modify (set_state reconnecting);;
    modify (set_attempts (reconnectAttempts s + 1));;
    s ← get;
    emit (OnReconnecting (reconnectAttempts s));;
    let baseInterval := reconnectInterval opts in
    let delay := Math_min (baseInterval * Qpower (3 # 2) (reconnectAttempts s - 1)) 30000 in
    modify (set_reconnect (Some delay));;
    emit (ScheduleReconnect delay).

(** [connect()]; [ctor_ok] says whether [new WebSocket(url)] returned
    (a new socket, not yet open) or threw. *)
Definition connect (opts : Options) (ctor_ok : bool) : M unit :=
  s ← get;
  if ConnectionState_eqb (state s) connected || ConnectionState_eqb (state s) connecting
  then mret tt
  else
    modify (set_state connecting);;
    if ctor_ok then modify (set_ws (Some false))
    else emit (OnError "WebSocket constructor error");; attemptReconnect opts.

(** [disconnect()] *)
Definition disconnect : M unit :=
  cleanup;;
  s ← get;
  (match ws s with Some _ => emit CloseSocket | None => mret tt end);;
  modify (set_ws None);;
  modify (set_state disconnected);;
  modify (set_connectionId None).

(** [Set.prototype.add] / [delete] on the subscription set. *)
Definition set_add (x : string) (l : list string) : list string :=
  if existsb (String.eqb x) l then l else l ++ [x].
Definition set_delete (x : string) (l : list string) : list string :=
  filter (fun y => negb (String.eqb y x)) l.

Definition types_payload (types : list string) : json :=
  JObj [("types", JArr (map JStr types))].

(** [subscribe(types)] *)
Definition subscribe (now : Z) (uuid : string) (types : list string) : M unit :=
  s ← get;
  modify (set_subscriptions (fold_left (fun l t => set_add t l) types (subscriptions s)));;
  s ← get;
  if ConnectionState_eqb (state s) connected then
    _ ← send (mkClientMessage uuid "config" now "subscribe" (Some (types_payload types)));
    mret tt
  else mret tt.

(** [unsubscribe(types)] *)
Definition unsubscribe (now : Z) (uuid : string) (types : list string) : M unit :=
  s ← get;
  modify (set_subscriptions (fold_left (fun l t => set_delete t l) types (subscriptions s)));;
  s ← get;
  if ConnectionState_eqb (state s) connected then
    _ ← send (mkClientMessage uuid "config" now "unsubscribe" (Some (types_payload types)));
    mret tt
  else mret tt.

(** The [while (this.messageQueue.length > 0)] loop of
    [flushMessageQueue], run for as many rounds as the queue has frames
    when it starts (every [send] in it writes to the open socket, so
    none is queued again). *)
Fixpoint flush_loop (fuel : nat) : M unit :=
  match fuel with
  | O => mret tt
  | S fuel' =>
      s ← get;
      match messageQueue s with
      | [] => mret tt
      | message :: rest =>
          modify (set_queue rest);;
          _ ← send message;
          flush_loop fuel'
      end
  end.

(** [flushMessageQueue()] *)
Definition flushMessageQueue (now : Z) (uuid : string) : M unit :=
  s ← get;
  match messageQueue s with
  | [] => mret tt
  | q =>
      flush_loop (length q);;
      s ← get;
      if negb (Nat.eqb (length (subscriptions s)) 0) then
        _ ← send (mkClientMessage uuid "config" now "subscribe"
                    (Some (types_payload (subscriptions s))));
        mret tt
      else mret tt
  end.

(** [startHeartbeat()] arms the interval. *)
Definition startHeartbeat : M unit := modify (set_heartbeat true).

(** [handleOpen()], run when the socket opens ([readyState] becomes
    [OPEN]). *)
Definition handleOpen (now : Z) (uuid : string) : M unit :=
  modify (set_ws (Some true));;
  modify (set_state connected);;
  modify (set_attempts 0);;
  modify (set_pong now);;
  startHeartbeat;;
  flushMessageQueue now uuid;;
  emit OnOpen.

(** [handleClose()], run when the socket closes. *)
Definition handleClose (opts : Options) : M unit :=
  s ← get;
  modify (set_ws (option_map (fun _ => false) (ws s)));;
  cleanup;;
  modify (set_connectionId None);;
  emit OnClose;;
  s ← get;
  if negb (ConnectionState_eqb (state s) disconnected)
  then attemptReconnect opts
  else mret tt.

(** [handleError()] *)
Definition handleError : M unit :=
  emit (OnError "WebSocket connection error").

(** [v === 'lit'] for a string literal. *)
Definition is_string (v : json) (lit : string) : bool :=
  match v with JStr x => String.eqb x lit | _ => false end.

(** [handleMessage(event)], given the result of [JSON.parse(event.data)]
    ([None] when it throws). A [TypeError] from reading a property of
    [null] / [undefined] is caught by the same [catch]. *)
Definition handleMessage (now : Z) (parsed : option json) : M unit :=
  let fail := emit (OnError "Failed to parse message") in
  match parsed with
  | None => fail
  | Some message =>
      match get_prop message "event" with
      | None => fail
      | Some ev =>
          if is_string ev "pong" then modify (set_pong now)
          else
            let record_id : option (M unit) :=
              if is_string ev "connected" then
                match get_prop message "data" with
                | None => None
                | Some data =>
                    match get_prop data "connectionId" with
                    | None => None
                    | Some cid =>
                        Some (if truthy cid then modify (set_connectionId (Some cid))
                              else mret tt)
                    end
                end
              else Some (mret tt) in
            match record_id with
            | None => fail
            | Some m => m;; emit (OnMessage message)
            end
      end
  end.

(** One firing of the heartbeat interval. *)
Definition heartbeatTick (opts : Options) (now : Z) (uuid : string) : M unit :=
  s ← get;
  if Z.ltb (heartbeatTimeout opts) (now - lastPongTime s) then
    match ws s with
    | Some _ => emit CloseSocket;; modify (set_ws (Some false))
    | None => mret tt
    end
  else ping now uuid.

(** What can happen to a client: calls by the application, events of
    its socket, and timers firing. *)
Inductive Event :=
| EvConnect (ctor_ok : bool)
| EvDisconnect
| EvSubscribe (types : list string)
| EvUnsubscribe (types : list string)
| EvSend (message : ClientMessage)
| EvOpen
| EvClose
| EvError
| EvMessage (parsed : option json)
| EvHeartbeat
| EvReconnectTimer (ctor_ok : bool).

(** An event with the [Date.now()] and [generateUUID()] it sees. *)
Record Input := mkInput { ev : Event; at_time : Z; fresh_id : string }.

Definition handle (opts : Options) (i : Input) : M unit :=
  match ev i with
  | EvConnect ok => connect opts ok
  | EvDisconnect => disconnect
  | EvSubscribe types => subscribe (at_time i) (fresh_id i) types
  | EvUnsubscribe types => unsubscribe (at_time i) (fresh_id i) types
  | EvSend m => _ ← send m; mret tt
  | EvOpen => handleOpen (at_time i) (fresh_id i)
  | EvClose => handleClose opts
  | EvError => handleError
  | EvMessage parsed => handleMessage (at_time i) parsed
  | EvHeartbeat =>
      s ← get;
      if heartbeat_running s then heartbeatTick opts (at_time i) (fresh_id i) else mret tt
  | EvReconnectTimer ok =>
      s ← get;
      match reconnect_pending s with
      | Some _ => modify (set_reconnect None);; connect opts ok
      | None => mret tt
      end
  end.

Fixpoint run (opts : Options) (inputs : list Input) : M unit :=
  match inputs with
  | [] => mret tt
  | i :: rest => handle opts i;; run opts rest
  end.


Import Stdlib.Strings.Ascii.

(** [generateUUID()]: every [x] / [y] of the template is replaced, left
    to right, using [r = Math.random() times 16, truncated]; [rnd k] is the [r] of
    the [k]-th replacement. [v.toString(16)] of a [v] below 16 is one
    lowercase hex digit. *)
Definition hex_digit (v : Z) : Ascii.ascii :=
  if Z.ltb v 10 then Ascii.ascii_of_nat (48 + Z.to_nat v) else Ascii.ascii_of_nat (87 + Z.to_nat v).

Definition uuid_template : list Ascii.ascii :=
  String.list_ascii_of_string "xxxxxxxx-xxxx-4xxx-yxxx-xxxxxxxxxxxx".

Fixpoint uuid_fill (rnd : nat -> Z) (k : nat) (t : list Ascii.ascii) : list Ascii.ascii :=
  match t with
  | [] => []
  | c :: t' =>
      if Ascii.eqb c "x"%char then hex_digit (rnd k) :: uuid_fill rnd (S k) t'
      else if Ascii.eqb c "y"%char then hex_digit (Z.lor (Z.land (rnd k) 3) 8) :: uuid_fill rnd (S k) t'
      else c :: uuid_fill rnd k t'
  end.

Definition generateUUID (rnd : nat -> Z) : string :=
  String.string_of_list_ascii (uuid_fill rnd 0 uuid_template).

(** A lowercase hexadecimal digit. *)
Definition is_hex_char (c : Ascii.ascii) : bool :=
  existsb (Ascii.eqb c) (String.list_ascii_of_string "0123456789abcdef").

End Client.

Module DetectorScenarios.
Import Detector.

(** A status sample that varies in [cpuUsage] only. *)
Definition cpu_sample (cpu : Q) : SystemStatus := mkStatus true cpu 50 65 0 0 0 "2.0.0".

(** Spec scenario 6: [cpuThreshold = 80], CPU samples 70, 85, 96, 85, 70. *)
Definition scenario6 : list SystemStatus := map cpu_sample [70; 85; 96; 85; 70]%Q.

Definition fresh : DetectorState := mkDetector None ∅.

End DetectorScenarios.

Module ClientScenarios.
Import Client.

Definition at_ (e : Event) (t : Z) : Input := mkInput e t "uuid".

(** Spec scenario 5 up to the drop: connect, open, subscribe to
    [{status, stats}], then the transport closes. *)
Definition scenario5_drop : list Input :=
  [at_ (EvConnect true) 0; at_ EvOpen 10; at_ (EvSubscribe ["status"; "stats"]) 20;
   at_ EvClose 30].

(** An application frame. *)
Definition app_frame : ClientMessage := mkClientMessage "app-1" "system" 3050 "ping" None.

(** The rest of scenario 5: the reconnect timer fires, the new socket
    opens, then the application sends a frame. *)
Definition scenario5_reconnect : list Input :=
  [at_ (EvReconnectTimer true) 3030; at_ EvOpen 3040; at_ (EvSend app_frame) 3050].

(** Five failed attempts in a row, then a sixth close. *)
Definition retry_until_ceiling : list Input :=
  [at_ (EvConnect true) 0; at_ EvClose 1;
   at_ (EvReconnectTimer true) 2; at_ EvClose 3;
   at_ (EvReconnectTimer true) 4; at_ EvClose 5;
   at_ (EvReconnectTimer true) 6; at_ EvClose 7;
   at_ (EvReconnectTimer true) 8; at_ EvClose 9;
   at_ (EvReconnectTimer true) 10; at_ EvClose 11].

End ClientScenarios.

(* ===================================================================== *)
(** * Properties *)
(* ===================================================================== *)

Section FindIndex.
Context {A : Type} (p : A -> bool).

Lemma findIndex_Some (l : list A) (i : nat) :
  findIndex p l = Some i ->
  exists l1 x l2, l = l1 ++ x :: l2 /\ length l1 = i /\ p x = true /\
                  Forall (fun y => p y = false) l1.
Proof.
  revert i; induction l as [|a l IH]; intros i H; simpl in H; [discriminate|].
  destruct (p a) eqn:Ha.
  - injection H as <-. exists [], a, l. auto.
  - destruct (findIndex p l) as [k|] eqn:Hk; simpl in H; [|discriminate].
    injection H as <-. destruct (IH k eq_refl) as (l1 & x & l2 & -> & Hlen & Hx & Hall).
    exists (a :: l1), x, l2. simpl. repeat split; auto.
Qed.

Lemma findIndex_None (l : list A) :
  findIndex p l = None -> Forall (fun y => p y = false) l.
Proof.
  induction l as [|a l IH]; simpl; intros H; [constructor|].
  destruct (p a) eqn:Ha; [discriminate|].
  destruct (findIndex p l); simpl in H; [discriminate|]. auto.
Qed.

Lemma findIndex_first (l1 l2 : list A) (x : A) :
  Forall (fun y => p y = false) l1 -> p x = true ->
  findIndex p (l1 ++ x :: l2) = Some (length l1).
Proof.
  induction 1 as [|y l1 Hy _ IH]; simpl; intros Hx.
  - now rewrite Hx.
  - rewrite Hy, IH by assumption. reflexivity.
Qed.
End FindIndex.

Lemma StronglySorted_app {A} (R : A -> A -> Prop) (l1 l2 : list A) :
  StronglySorted R l1 -> StronglySorted R l2 ->
  (forall x y, In x l1 -> In y l2 -> R x y) ->
  StronglySorted R (l1 ++ l2).
Proof.
  intros H1 H2 Hxy. induction H1 as [|a l1 _ IH Ha]; simpl; [assumption|].
  constructor.
  - apply IH. intros x y Hx Hy. apply Hxy; simpl; auto.
  - apply Forall_app; split; [assumption|].
    apply List.Forall_forall. intros y Hy. apply Hxy; simpl; auto.
Qed.

Lemma StronglySorted_app_inv {A} (R : A -> A -> Prop) (l1 l2 : list A) :
  StronglySorted R (l1 ++ l2) ->
  StronglySorted R l1 /\ StronglySorted R l2 /\
  (forall x y, In x l1 -> In y l2 -> R x y).
Proof.
  induction l1 as [|a l1 IH]; simpl; intros H.
  - repeat split; [constructor | assumption | tauto].
  - apply StronglySorted_inv in H as [H Ha].
    destruct (IH H) as (H1 & H2 & H12). apply Forall_app in Ha as [Ha1 Ha2].
    repeat split; auto.
    + constructor; auto.
    + intros x y [<-|Hx] Hy; auto. rewrite List.Forall_forall in Ha2. auto.
Qed.

Module BoundedSchedulerFacts.
Import BoundedScheduler.

Lemma Priority_eqb_spec a b : Priority_eqb a b = true <-> a = b.
Proof. destruct a, b; simpl; split; congruence. Qed.

Lemma insertByPriority_length m q :
  length (insertByPriority m q) = S (length q).
Proof.
  unfold insertByPriority.
  destruct (findIndex _ q) as [i|] eqn:Hi.
  - apply findIndex_Some in Hi as (l1 & x & l2 & -> & <- & _ & _).
    unfold splice_insert. rewrite take_app_length, drop_app_length.
    rewrite !length_app. simpl. lia.
  - rewrite length_app. simpl. lia.
Qed.

Lemma insertByPriority_placed m q :
  prio_sorted q ->
  placed_in_priority_order m q (insertByPriority m q) /\
  prio_sorted (insertByPriority m q).
Proof.
  intros Hs. unfold insertByPriority.
  destruct (findIndex _ q) as [i|] eqn:Hi.
  - apply findIndex_Some in Hi as (l1 & x & l2 & -> & <- & Hx & Hl1).
    unfold splice_insert. rewrite take_app_length, drop_app_length.
    apply Nat.ltb_lt in Hx.
    assert (Hle : Forall (fun y => (rank y <= rank m)%nat) l1).
    { eapply Forall_impl; [exact Hl1|]. intros y Hy. apply Nat.ltb_ge in Hy.
      unfold rank. lia. }
    apply StronglySorted_app_inv in Hs as (Hs1 & Hs2 & H12).
    assert (Hgt : Forall (fun y => (rank m < rank y)%nat) (x :: l2)).
    { apply StronglySorted_inv in Hs2 as [_ Hx2].
      constructor; [exact Hx|].
      eapply Forall_impl; [exact Hx2|]. intros y Hy. unfold rank in *. lia. }
    split.
    + exists l1, (x :: l2). auto.
    + apply StronglySorted_app; auto.
      * constructor; auto. eapply Forall_impl; [exact Hgt|]. intros y Hy. cbv beta in *. lia.
      * intros a b Ha [<-|Hb]; rewrite List.Forall_forall in Hle; [apply Hle; auto|].
        apply Hle in Ha. rewrite List.Forall_forall in Hgt.
        assert (rank m < rank b)%nat by (apply Hgt; auto). lia.
  - apply findIndex_None in Hi.
    assert (Hle : Forall (fun y => (rank y <= rank m)%nat) q).
    { eapply Forall_impl; [exact Hi|]. intros y Hy. apply Nat.ltb_ge in Hy.
      unfold rank. lia. }
    split.
    + exists q, []. rewrite app_nil_r. auto.
    + apply StronglySorted_app; auto.
      * repeat constructor.
      * intros a b Ha [<-|[]]. rewrite List.Forall_forall in Hle. auto.
Qed.

Lemma prio_sorted_delete l1 x l2 :
  prio_sorted (l1 ++ x :: l2) -> prio_sorted (l1 ++ l2).
Proof.
  intros H. apply StronglySorted_app_inv in H as (H1 & H2 & H12).
  apply StronglySorted_inv in H2 as [H2 _].
  apply StronglySorted_app; auto. intros a b Ha Hb. apply H12; simpl; auto.
Qed.

Lemma delete_middle' (l1 l2 : list BroadcastMessage) x :
  delete (length l1) (l1 ++ x :: l2) = l1 ++ l2.
Proof. apply delete_middle. Qed.


Lemma enqueue_queue_not_full maxQ m q :
  Z.of_nat (length q) < maxQ ->
  enqueue_queue maxQ m q = (true, insertByPriority m q).
Proof.
  intros H. unfold enqueue_queue.
  destruct (Z.of_nat (length q) >=? maxQ) eqn:E; [|reflexivity].
  apply Z.geb_le in E. lia.
Qed.

Lemma delete_found (p : BroadcastMessage -> bool) q i :
  findIndex p q = Some i ->
  exists l1 x l2, q = l1 ++ x :: l2 /\ p x = true /\
    Forall (fun y => p y = false) l1 /\ delete i q = l1 ++ l2.
Proof.
  intros Hi. apply findIndex_Some in Hi as (l1 & x & l2 & -> & <- & Hx & Hl1).
  exists l1, x, l2. repeat split; auto. apply delete_middle.
Qed.

(** On a full queue an enqueue either leaves the queue as it was or
    replaces one message, so the length never grows. *)
Lemma enqueue_queue_full maxQ m q :
  maxQ <= Z.of_nat (length q) ->
  (enqueue_queue maxQ m q = (false, q)) \/
  (fst (enqueue_queue maxQ m q) = true /\
   length (snd (enqueue_queue maxQ m q)) = length q).
Proof.
  intros H. unfold enqueue_queue.
  destruct (Z.of_nat (length q) >=? maxQ) eqn:E.
  2:{ rewrite Z.geb_leb, Z.leb_gt in E. lia. }
  destruct (findIndex (fun m0 => Priority_eqb (priority m0) low) q) as [i|] eqn:Hi;
    destruct (Priority_eqb (priority m) low) eqn:Hm; auto.
  - right. simpl. apply delete_found in Hi as (l1 & x & l2 & -> & _ & _ & ->).
    rewrite insertByPriority_length, !length_app. simpl. lia.
  - destruct (findIndex (fun m0 => Priority_eqb (priority m0) medium) q) as [j|] eqn:Hj;
      destruct (Priority_eqb (priority m) high); auto.
    right. simpl. apply delete_found in Hj as (l1 & x & l2 & -> & _ & _ & ->).
    rewrite insertByPriority_length, !length_app. simpl. lia.
Qed.

Lemma enqueue_step_bound s m :
  Z.of_nat (length (queue s)) <= maxQueueSize s ->
  Z.of_nat (length (queue (snd (enqueue s m)))) <= maxQueueSize (snd (enqueue s m)).
Proof.
  intros H. unfold enqueue.
  destruct (enqueue_queue (maxQueueSize s) m (queue s)) as [ok q'] eqn:E. simpl.
  destruct (Z_lt_le_dec (Z.of_nat (length (queue s))) (maxQueueSize s)) as [Hlt|Hge].
  - rewrite enqueue_queue_not_full in E by assumption. injection E as <- <-.
    rewrite insertByPriority_length. lia.
  - destruct (enqueue_queue_full (maxQueueSize s) m (queue s) Hge) as [E'|[_ Hlen]].
    + rewrite E in E'. injection E' as _ ->. assumption.
    + rewrite E in Hlen. simpl in Hlen. rewrite Hlen. assumption.
Qed.

(** ** C1 (I3, queue bound): starting from a queue within the bound
    (the constructor's empty queue is), after every enqueue of any
    sequence of enqueues [|Q| <= maxQueueSize]; on a full queue an
    enqueue never appends: it either rejects (queue unchanged) or
    displaces one message (length unchanged). *)
Theorem enqueue_respects_maxQueueSize (s : Scheduler) (ms : list BroadcastMessage) :
  Z.of_nat (length (queue s)) <= maxQueueSize s ->
  Forall (fun s' => Z.of_nat (length (queue s')) <= maxQueueSize s')
         (enqueue_trace s ms) /\
  (forall s' m, s' = s \/ In s' (enqueue_trace s ms) ->
     maxQueueSize s' <= Z.of_nat (length (queue s')) ->
     (enqueue s' m = (false, s')) \/
     (fst (enqueue s' m) = true /\
      length (queue (snd (enqueue s' m))) = length (queue s'))).
Proof.
  intros H. split.
  - revert s H; induction ms as [|m ms IH]; intros s H; simpl; constructor.
    + now apply enqueue_step_bound.
    + apply IH. now apply enqueue_step_bound.
  - intros s' m _ Hfull. unfold enqueue.
    destruct (enqueue_queue_full (maxQueueSize s') m (queue s') Hfull) as [E|[E1 E2]].
    + left. rewrite E. destruct s'; reflexivity.
    + right. destruct (enqueue_queue (maxQueueSize s') m (queue s')) as [ok q'].
      simpl in *. auto.
Qed.


Lemma findIndex_prio_None P q :
  findIndex (fun y => Priority_eqb (priority y) P) q = None <->
  Forall (fun y => priority y <> P) q.
Proof.
  split.
  - intros H. apply findIndex_None in H. eapply Forall_impl; [exact H|].
    intros y Hy E. apply Priority_eqb_spec in E. congruence.
  - induction q as [|a q IH]; intros H; [reflexivity|].
    apply Forall_cons in H as [Ha H]. simpl.
    destruct (Priority_eqb (priority a) P) eqn:E.
    + apply Priority_eqb_spec in E. contradiction.
    + rewrite IH by assumption. reflexivity.
Qed.

Lemma displaces_found P maxQ m q i :
  Z.of_nat (length q) = maxQ -> prio_sorted q ->
  findIndex (fun y => Priority_eqb (priority y) P) q = Some i ->
  displaces P maxQ m q (true, insertByPriority m (delete i q)).
Proof.
  intros Hlen Hs Hi.
  apply delete_found in Hi as (l1 & x & l2 & -> & Hx & Hl1 & ->).
  apply Priority_eqb_spec in Hx.
  assert (Hs' : prio_sorted (l1 ++ l2)) by (eapply prio_sorted_delete; eauto).
  destruct (insertByPriority_placed m (l1 ++ l2) Hs') as [Hp Hs''].
  exists l1, x, l2. repeat split; auto.
  - eapply Forall_impl; [exact Hl1|]. intros y Hy E.
    apply Priority_eqb_spec in E. congruence.
  - simpl. rewrite insertByPriority_length. rewrite !length_app in *. simpl in *. lia.
Qed.

Lemma Priority_eqb_false a b : Priority_eqb a b = false <-> a <> b.
Proof. rewrite <- Priority_eqb_spec. destruct (Priority_eqb a b); intuition congruence. Qed.

(** ** C3 (displacement rule on a full queue).  The source's priority
    [medium] is the spec's [normal].  For a queue exactly at [maxQ]
    (kept ordered by priority, as every queue built by [enqueue] is):
    1. if some queued message is [low] and the incoming one is not, the
       first [low] message is evicted, the incoming one is inserted in
       priority order (after the queued messages of the same or higher
       priority, i.e. after earlier enqueues of its priority, before
       lower priorities) and the enqueue is accepted;
    2. otherwise, an incoming [low] message is rejected;
    3. otherwise, if a [medium] message is queued and the incoming one is
       [high], the first [medium] message is evicted and the incoming one
       inserted in priority order;
    4. otherwise the enqueue is rejected (queue unchanged).
    On every acceptance the queue length stays [maxQ]. *)
Theorem enqueue_full_displacement_rule (maxQ : Z) (q : list BroadcastMessage)
    (m : BroadcastMessage) :
  Z.of_nat (length q) = maxQ -> prio_sorted q ->
  ((exists x, In x q /\ priority x = low) -> priority m <> low ->
     displaces low maxQ m q (enqueue_queue maxQ m q)) /\
  (priority m = low -> enqueue_queue maxQ m q = (false, q)) /\
  (Forall (fun y => priority y <> low) q -> priority m = high ->
     (exists x, In x q /\ priority x = medium) ->
     displaces medium maxQ m q (enqueue_queue maxQ m q)) /\
  (Forall (fun y => priority y <> low) q -> priority m <> low ->
     ~ (priority m = high /\ exists x, In x q /\ priority x = medium) ->
     enqueue_queue maxQ m q = (false, q)).
Proof.
  intros Hlen Hs.
  assert (Hfull : (Z.of_nat (length q) >=? maxQ) = true)
    by (apply Z.geb_le; lia).
  unfold enqueue_queue. rewrite Hfull.
  assert (Hex : forall P, (exists x, In x q /\ priority x = P) ->
            exists i, findIndex (fun y => Priority_eqb (priority y) P) q = Some i).
  { intros P (x & Hx & HP).
    destruct (findIndex _ q) as [i|] eqn:Hi; [eauto|].
    apply findIndex_prio_None in Hi. rewrite List.Forall_forall in Hi.
    exfalso. exact (Hi x Hx HP). }
  repeat split.
  - intros Hlow Hm. destruct (Hex low Hlow) as [i Hi]. rewrite Hi.
    apply Priority_eqb_false in Hm. rewrite Hm.
    now apply displaces_found.
  - intros Hm. apply Priority_eqb_spec in Hm. rewrite Hm.
    destruct (findIndex _ q); reflexivity.
  - intros Hnl Hm Hmed. apply findIndex_prio_None in Hnl. rewrite Hnl.
    assert (Hm' : Priority_eqb (priority m) low = false)
      by (apply Priority_eqb_false; congruence).
    rewrite Hm'. destruct (Hex medium Hmed) as [j Hj]. rewrite Hj.
    apply Priority_eqb_spec in Hm. rewrite Hm.
    now apply displaces_found.
  - intros Hnl Hm Hnot. apply findIndex_prio_None in Hnl. rewrite Hnl.
    apply Priority_eqb_false in Hm. rewrite Hm.
    destruct (findIndex (fun y => Priority_eqb (priority y) medium) q) as [j|] eqn:Hj;
      [|reflexivity].
    destruct (Priority_eqb (priority m) high) eqn:Hh; [|reflexivity].
    exfalso. apply Hnot. split; [now apply Priority_eqb_spec|].
    apply delete_found in Hj as (l1 & x & l2 & -> & Hx & _ & _).
    exists x. split; [apply in_or_app; simpl; auto|]. now apply Priority_eqb_spec.
Qed.

(** Witness of [enqueue_respects_maxQueueSize]: spec scenario 1. *)
Lemma enqueue_respects_maxQueueSize_witness :
  Z.of_nat (length (queue (create (Some 3)))) <= maxQueueSize (create (Some 3)) /\
  Forall (fun s' => Z.of_nat (length (queue s')) <= maxQueueSize s')
         (enqueue_trace (create (Some 3)) Scenarios.scenario1).
Proof.
  assert (H : Z.of_nat (length (queue (create (Some 3)))) <= maxQueueSize (create (Some 3)))
    by (simpl; lia).
  split; [exact H|].
  exact (proj1 (enqueue_respects_maxQueueSize (create (Some 3)) Scenarios.scenario1 H)).
Defined.

(** Spec scenario 1 run on the code: [H1] displaces [L1] and goes to the
    front; [L4] is then rejected and the queue keeps 3 messages. *)
Example scenario1_run :
  let s3 := fold_left (fun s m => snd (enqueue s m))
                      [Scenarios.L1; Scenarios.L2; Scenarios.L3] (create (Some 3)) in
  enqueue s3 Scenarios.H1 =
    (true, mkScheduler [Scenarios.H1; Scenarios.L2; Scenarios.L3] 3) /\
  enqueue (snd (enqueue s3 Scenarios.H1)) Scenarios.L4 =
    (false, mkScheduler [Scenarios.H1; Scenarios.L2; Scenarios.L3] 3).
Proof. split; reflexivity. Qed.

(** Witness of [enqueue_full_displacement_rule] on the full queue of
    spec scenario 1. *)
Lemma enqueue_full_displacement_rule_witness :
  Z.of_nat (length [Scenarios.L1; Scenarios.L2; Scenarios.L3]) = 3 /\
  prio_sorted [Scenarios.L1; Scenarios.L2; Scenarios.L3] /\
  displaces low 3 Scenarios.H1 [Scenarios.L1; Scenarios.L2; Scenarios.L3]
    (enqueue_queue 3 Scenarios.H1 [Scenarios.L1; Scenarios.L2; Scenarios.L3]).
Proof.
  assert (Hl : Z.of_nat (length [Scenarios.L1; Scenarios.L2; Scenarios.L3]) = 3)
    by reflexivity.
  assert (Hs : prio_sorted [Scenarios.L1; Scenarios.L2; Scenarios.L3]).
  { unfold prio_sorted. repeat constructor. }
  split; [exact Hl|]. split; [exact Hs|].
  apply (proj1 (enqueue_full_displacement_rule 3 _ Scenarios.H1 Hl Hs)).
  - exists Scenarios.L1. split; [left; reflexivity|reflexivity].
  - discriminate.
Defined.

Lemma enqueue_queue_sorted maxQ m q :
  prio_sorted q -> prio_sorted (snd (enqueue_queue maxQ m q)).
Proof.
  intros Hs. unfold enqueue_queue.
  assert (Hdel : forall P i, findIndex (fun y => Priority_eqb (priority y) P) q = Some i ->
            prio_sorted (insertByPriority m (delete i q))).
  { intros P i Hi. apply delete_found in Hi as (l1 & x & l2 & -> & _ & _ & ->).
    apply insertByPriority_placed. eapply prio_sorted_delete; eauto. }
  destruct (Z.of_nat (length q) >=? maxQ).
  - destruct (findIndex (fun y => Priority_eqb (priority y) low) q) as [i|] eqn:Hi;
      destruct (Priority_eqb (priority m) low); cbn [snd]; eauto.
    destruct (findIndex (fun y => Priority_eqb (priority y) medium) q) as [j|] eqn:Hj;
      destruct (Priority_eqb (priority m) high); cbn [snd]; eauto.
  - apply insertByPriority_placed, Hs.
Qed.

(** Whatever sequence of messages is enqueued on a new scheduler (or on
    any queue ordered by priority), after every enqueue the queue is
    ordered by priority: all [high] messages first, then [medium], then
    [low], so [processQueue], which shifts from the front, broadcasts
    higher priorities first. *)
Theorem enqueue_keeps_priority_order (s : Scheduler) (ms : list BroadcastMessage) :
  prio_sorted (queue s) -> Forall (fun s' => prio_sorted (queue s')) (enqueue_trace s ms).
Proof.
  revert s. induction ms as [|m ms IH]; intros s Hs; simpl; constructor.
  - unfold enqueue. destruct (enqueue_queue _ m _) as [ok q'] eqn:E. cbn.
    change q' with (snd (ok, q')). rewrite <- E. now apply enqueue_queue_sorted.
  - apply IH. unfold enqueue. destruct (enqueue_queue _ m _) as [ok q'] eqn:E. cbn.
    change q' with (snd (ok, q')). rewrite <- E. now apply enqueue_queue_sorted.
Qed.

(** Witness of [enqueue_keeps_priority_order]: spec scenario 1 from the
    constructor's empty queue. *)
Lemma enqueue_keeps_priority_order_witness :
  Forall (fun s' => prio_sorted (queue s')) (enqueue_trace (create (Some 3)) Scenarios.scenario1).
Proof.
  apply enqueue_keeps_priority_order. constructor.
Defined.

(** When [enqueue] returns [false]: exactly when the queue is full and
    the message is [low], or [medium] with no [low] message queued, or
    [high] with neither [low] nor [medium] queued. In particular a [high]
    message is refused only when every queued message is [high]. A
    refused message leaves the queue as it was. *)
Theorem enqueue_rejects_iff (maxQ : Z) (m : BroadcastMessage) (q : list BroadcastMessage) :
  (fst (enqueue_queue maxQ m q) = false <->
   maxQ <= Z.of_nat (length q) /\
   (priority m = low \/
    (priority m = medium /\ Forall (fun y => priority y <> low) q) \/
    (priority m = high /\ Forall (fun y => priority y = high) q))) /\
  (fst (enqueue_queue maxQ m q) = false -> snd (enqueue_queue maxQ m q) = q).
Proof.
  assert (Hhigh : Forall (fun y => priority y = high) q <->
                  Forall (fun y => priority y <> low) q /\ Forall (fun y => priority y <> medium) q).
  { rewrite !List.Forall_forall. split.
    - intros H. split; intros x Hx; rewrite (H x Hx); discriminate.
    - intros [H1 H2] x Hx. specialize (H1 x Hx). specialize (H2 x Hx).
      destruct (priority x); congruence. }
  unfold enqueue_queue.
  destruct (Z.geb_spec (Z.of_nat (length q)) maxQ) as [Hf|Hf].
  2:{ cbn. split; [split; [discriminate|lia]|discriminate]. }
  destruct (findIndex (fun y => Priority_eqb (priority y) low) q) as [i|] eqn:Hi.
  - assert (Hl : ~ Forall (fun y => priority y <> low) q).
    { rewrite <- findIndex_prio_None. congruence. }
    destruct (priority m) eqn:Hm; cbn.
    + split; [split; [discriminate|]|discriminate].
      intros [_ [?|[[? _]|[_ Hall]]]]; [discriminate|discriminate|].
      apply Hhigh in Hall. tauto.
    + split; [split; [discriminate|]|discriminate].
      intros [_ [?|[[_ Hall]|[? _]]]]; [discriminate|tauto|discriminate].
    + split; [split; [intros _; split; [lia|auto]|reflexivity]|reflexivity].
  - apply findIndex_prio_None in Hi.
    destruct (priority m) eqn:Hm; cbn.
    + destruct (findIndex (fun y => Priority_eqb (priority y) medium) q) as [j|] eqn:Hj; cbn.
      * assert (Hmd : ~ Forall (fun y => priority y <> medium) q).
        { rewrite <- findIndex_prio_None. congruence. }
        split; [split; [discriminate|]|discriminate].
        intros [_ [?|[[? _]|[_ Hall]]]]; [discriminate|discriminate|].
        apply Hhigh in Hall. tauto.
      * apply findIndex_prio_None in Hj.
        split; [split; [intros _; split; [lia|]|reflexivity]|reflexivity].
        right; right. split; [reflexivity|]. apply Hhigh. auto.
    + destruct (findIndex (fun y => Priority_eqb (priority y) medium) q); cbn;
        (split; [split; [intros _; split; [lia|auto]|reflexivity]|reflexivity]).
    + destruct (findIndex (fun y => Priority_eqb (priority y) medium) q); cbn;
        (split; [split; [intros _; split; [lia|auto]|reflexivity]|reflexivity]).
Qed.

End BoundedSchedulerFacts.

Module HubSchedulerFacts.
Import Wire HubScheduler.

Lemma compareTasks_le a b : compareTasks a b <= 0 <-> task_le a b.
Proof.
  unfold compareTasks, task_le.
  destruct (Z.eqb_spec (priorityWeight (task_priority a) - priorityWeight (task_priority b)) 0)
    as [E|E]; simpl; lia.
Qed.

Lemma task_le_trans a b c : task_le a b -> task_le b c -> task_le a c.
Proof. unfold task_le. lia. Qed.

Lemma task_le_total a b : ~ task_le a b -> task_le b a.
Proof. unfold task_le. lia. Qed.

Lemma Forall_insert_sorted (P : BroadcastTask -> Prop) x l :
  Forall P (insert_sorted x l) <-> P x /\ Forall P l.
Proof.
  induction l as [|y l IH]; simpl.
  - rewrite !Forall_cons, Forall_nil. tauto.
  - destruct (compareTasks x y <=? 0); rewrite !Forall_cons; [tauto|].
    rewrite IH. tauto.
Qed.

Lemma insert_sorted_sorted x l :
  StronglySorted task_le l -> StronglySorted task_le (insert_sorted x l).
Proof.
  induction 1 as [|y l Hl IH Hy]; simpl; [repeat constructor|].
  destruct (compareTasks x y <=? 0) eqn:E.
  - apply Z.leb_le, compareTasks_le in E.
    constructor; [constructor; assumption|].
    constructor; [assumption|].
    eapply Forall_impl; [exact Hy|]. intros z Hz. eapply task_le_trans; eauto.
  - apply Z.leb_gt in E.
    assert (Hyx : task_le y x).
    { apply task_le_total. intros H. apply compareTasks_le in H. lia. }
    constructor; [assumption|]. apply Forall_insert_sorted. auto.
Qed.

Lemma sortQueue_sorted q : StronglySorted task_le (sortQueue q).
Proof.
  induction q as [|t q IH]; simpl; [constructor|]. now apply insert_sorted_sorted.
Qed.

Lemma insert_sorted_perm x l : insert_sorted x l ≡ₚ x :: l.
Proof.
  induction l as [|y l IH]; simpl; [reflexivity|].
  destruct (compareTasks x y <=? 0); [reflexivity|].
  rewrite IH. constructor.
Qed.

Lemma sortQueue_perm q : sortQueue q ≡ₚ q.
Proof.
  induction q as [|t q IH]; simpl; [reflexivity|].
  rewrite insert_sorted_perm, IH. reflexivity.
Qed.

Lemma StronglySorted_take {A} (R : A -> A -> Prop) n l :
  StronglySorted R l -> StronglySorted R (take n l).
Proof.
  intros H. rewrite <- (take_drop n l) in H.
  now apply StronglySorted_app_inv in H as [H _].
Qed.

Lemma StronglySorted_filter {A} (R : A -> A -> Prop) (f : A -> bool) l :
  StronglySorted R l -> StronglySorted R (List.filter f l).
Proof.
  induction 1 as [|a l _ IH Ha]; simpl; [constructor|].
  destruct (f a); [|assumption]. constructor; [assumption|].
  apply List.Forall_forall. intros y Hy. apply List.filter_In in Hy as [Hy _].
  rewrite List.Forall_forall in Ha. auto.
Qed.


Ltac string_cases :=
  repeat match goal with
  | |- context [String.eqb ?a ?b] => destruct (String.eqb_spec a b); subst
  end.

Lemma assoc_group_add t gs k :
  assoc k (group_add t gs) =
  if String.eqb k (task_type t) then Some (default [] (assoc k gs) ++ [t])
  else assoc k gs.
Proof.
  induction gs as [|[k' ts] gs IH]; simpl; string_cases; simpl;
    string_cases; try congruence; rewrite IH; string_cases; congruence.
Qed.

Lemma keys_group_add t gs :
  map fst (group_add t gs) =
  if bool_decide (task_type t ∈ map fst gs) then map fst gs
  else map fst gs ++ [task_type t].
Proof.
  induction gs as [|[k ts] gs IH]; simpl; [reflexivity|].
  destruct (String.eqb_spec k (task_type t)) as [E|E]; simpl.
  - rewrite bool_decide_true by (subst; left). reflexivity.
  - rewrite IH. destruct (bool_decide (task_type t ∈ map fst gs)) eqn:B;
      [rewrite bool_decide_eq_true in B | rewrite bool_decide_eq_false in B].
    + rewrite bool_decide_true by (right; assumption). reflexivity.
    + rewrite bool_decide_false; [reflexivity|].
      intros H. apply elem_of_cons in H as [H|H]; [congruence|contradiction].
Qed.

Lemma tasks_of_type_snoc k l t :
  tasks_of_type k (l ++ [t]) =
  tasks_of_type k l ++ (if String.eqb (task_type t) k then [t] else []).
Proof. unfold tasks_of_type. rewrite List.filter_app. reflexivity. Qed.

Lemma assoc_None_notin k gs : assoc k gs = None -> k ∉ map fst gs.
Proof.
  induction gs as [|[k' v] gs IH]; simpl; intros H; [apply not_elem_of_nil|].
  destruct (String.eqb_spec k' k); [discriminate|].
  intros Hin. apply elem_of_cons in Hin as [Hin|Hin]; [congruence|]. now apply IH.
Qed.

Lemma assoc_Some_in k gs ts : assoc k gs = Some ts -> k ∈ map fst gs.
Proof.
  induction gs as [|[k' v] gs IH]; simpl; intros H; [discriminate|].
  destruct (String.eqb_spec k' k); [subst; left|right; eauto].
Qed.

Lemma group_add_groups_of l t gs :
  groups_of l gs -> groups_of (l ++ [t]) (group_add t gs).
Proof.
  intros [Hnd Has]. split.
  - rewrite keys_group_add. case_bool_decide as B; [assumption|].
    apply NoDup_app. repeat split; [assumption| |apply NoDup_singleton].
    intros x Hx Hx'. apply list_elem_of_singleton in Hx'. subst. contradiction.
  - intros k. rewrite assoc_group_add, tasks_of_type_snoc, Has.
    destruct (String.eqb_spec k (task_type t)) as [E|E].
    + subst k. rewrite String.eqb_refl.
      destruct (tasks_of_type (task_type t) l); reflexivity.
    + destruct (String.eqb_spec (task_type t) k); [congruence|].
      rewrite app_nil_r. reflexivity.
Qed.

Lemma groupByType_groups_of l : groups_of l (groupByType l).
Proof.
  induction l as [|t l IH] using rev_ind.
  - split; [constructor|]. intros k. reflexivity.
  - unfold groupByType. rewrite fold_left_app. simpl.
    now apply group_add_groups_of.
Qed.

Lemma In_assoc k ts gs :
  NoDup (map fst gs) -> In (k, ts) gs -> assoc k gs = Some ts.
Proof.
  induction gs as [|[k' v] gs IH]; simpl; intros Hnd Hin; [contradiction|].
  apply NoDup_cons in Hnd as [Hk Hnd].
  destruct Hin as [E|Hin].
  - injection E as -> ->. now rewrite String.eqb_refl.
  - destruct (String.eqb_spec k' k); [|auto].
    subst. exfalso. apply Hk. apply list_elem_of_In, in_map_iff.
    exists (k, ts). auto.
Qed.

(** The groups of [groupByType l]: distinct types, each group the
    tasks of [l] of its type in their order, never empty, and every task
    of [l] in the group of its type. *)
Lemma groupByType_spec l :
  NoDup (map fst (groupByType l)) /\
  (forall k ts, In (k, ts) (groupByType l) ->
     ts = tasks_of_type k l /\ ts <> []) /\
  (forall t, In t l -> In (task_type t) (map fst (groupByType l))).
Proof.
  destruct (groupByType_groups_of l) as [Hnd Has].
  split; [assumption|]. split.
  - intros k ts Hin. apply In_assoc in Hin; [|assumption].
    rewrite Has in Hin. destruct (tasks_of_type k l); split; congruence.
  - intros t Ht. specialize (Has (task_type t)).
    destruct (tasks_of_type (task_type t) l) as [|u us] eqn:E.
    + exfalso. assert (In t (tasks_of_type (task_type t) l)) as Hin.
      { apply List.filter_In. split; [assumption|]. apply String.eqb_refl. }
      rewrite E in Hin. contradiction.
    + apply list_elem_of_In. eapply assoc_Some_in. exact Has.
Qed.


Section Outputs.
Variable conns : string -> list Connection.
Variable stringify : ServerMessage -> string.
Variable uuid : nat -> string.
Variable now : Z.

Lemma sendToConnection_all (cs : list Connection) (m : string) :
  flat_map (fun c => sendToConnection c m) cs =
  map (fun c => (conn_id c, m)) (List.filter (fun c => isAlive c && socket_open c) cs).
Proof.
  induction cs as [|c cs IH]; simpl; [reflexivity|].
  unfold sendToConnection at 1. destruct (isAlive c && socket_open c); simpl; congruence.
Qed.

Lemma broadcast_groups_groups k gs :
  map (fun o => (out_type o, out_tasks o)) (broadcast_groups conns stringify uuid now k gs) =
  List.filter (fun g => negb (Nat.eqb (length (conns (fst g))) 0)) gs.
Proof.
  revert k; induction gs as [|[type ts] gs IH]; intros k; simpl; [reflexivity|].
  destruct (conns type) eqn:E; simpl; rewrite ?IH; reflexivity.
Qed.

Lemma broadcast_groups_out k gs o :
  In o (broadcast_groups conns stringify uuid now k gs) ->
  In (out_type o, out_tasks o) gs /\ conns (out_type o) <> [] /\
  (exists j, out_message o = createMergedMessage (uuid j) now (out_type o) (out_tasks o)) /\
  out_serialized o = stringify (out_message o) /\
  out_writes o = flat_map (fun c => sendToConnection c (out_serialized o)) (conns (out_type o)).
Proof.
  revert k; induction gs as [|[type ts] gs IH]; intros k Hin; simpl in Hin; [contradiction|].
  destruct (conns type) as [|c cs] eqn:E.
  - destruct (IH k Hin) as (H1 & H2). split; [right; assumption|exact H2].
  - destruct Hin as [<-|Hin]; simpl.
    + split; [left; reflexivity|]. rewrite E. split; [discriminate|].
      split; [eexists; reflexivity|]. split; reflexivity.
    + destruct (IH (S k) Hin) as (H1 & H2). split; [right; assumption|exact H2].
Qed.

Lemma batch_event_timestamps_merged u type ts :
  (1 < length ts)%nat ->
  event (createMergedMessage u now type ts) = "batch_update" /\
  batch_event_timestamps (createMergedMessage u now type ts) = map task_timestamp ts.
Proof.
  intros Hlen. destruct ts as [|t0 [|t1 ts]]; simpl in Hlen; try lia.
  split; [reflexivity|]. unfold batch_event_timestamps. simpl.
  do 2 f_equal. clear.
  induction ts as [|t ts IH]; [reflexivity|]. simpl. rewrite IH. reflexivity.
Qed.

End Outputs.

(** ** C4 (corrected).  Within every group emitted by a drain, the tasks
    are in [(priority, timestamp)] order ([task_le]): high before normal
    before low, and non-decreasing timestamps among tasks of the same
    priority; for a [batch_update] the timestamps in [data.events] are
    exactly those of the group's tasks in that order. *)
Theorem drain_groups_priority_timestamp_order
    (conns : string -> list Connection) (stringify : ServerMessage -> string)
    (uuid : nat -> string) (now : Z) (s : SchedulerState) :
  let '(batch, outs, _, _) := processQueue conns stringify uuid now s in
  forall o, In o outs ->
    StronglySorted task_le (out_tasks o) /\
    ((1 < length (out_tasks o))%nat ->
     event (out_message o) = "batch_update" /\
     batch_event_timestamps (out_message o) = map task_timestamp (out_tasks o)).
Proof.
  unfold processQueue.
  destruct (isProcessing s || Nat.eqb (length (messageQueue s)) 0).
  { intros o []. }
  simpl. intros o Hin.
  unfold broadcastBatch in Hin.
  set (batch := take _ (sortQueue (messageQueue s))) in *.
  assert (Hb : StronglySorted task_le batch)
    by (apply StronglySorted_take, sortQueue_sorted).
  destruct batch as [|b bs] eqn:Eb; [contradiction|]. rewrite <- Eb in Hin, Hb.
  apply broadcast_groups_out in Hin as (Hg & _ & [j Hm] & _).
  destruct (groupByType_spec batch) as (_ & Hgs & _).
  destruct (Hgs _ _ Hg) as [Ht _].
  split.
  - rewrite Ht. now apply StronglySorted_filter.
  - intros Hlen. rewrite Hm. now apply batch_event_timestamps_merged.
Qed.


Lemma broadcastBatch_groups conns stringify uuid now batch :
  broadcastBatch conns stringify uuid now batch =
  broadcast_groups conns stringify uuid now 0 (groupByType batch).
Proof. destruct batch; reflexivity. Qed.

(** ** C6 (corrected).  A drain that runs (not already processing,
    queue non-empty) sorts the whole queue by [(priority, timestamp)]
    (a permutation, ordered by [task_le]), takes the prefix of
    [broadcastBatchSize || 100] tasks (so 100 when the option is 0) and
    keeps the rest queued; it groups the batch by type (distinct types,
    each group the batch's tasks of that type in order, every task in
    its group); it emits exactly the groups that have a subscribed
    connection, in group order; a one-task group carries that task's
    event and data, a larger group one [batch_update] whose
    [data.events] lists [{event, data, timestamp}] of its tasks in
    order; the envelope is serialized once, and that one string is what
    is written to every subscribed connection that is alive and open. *)
Theorem drain_sort_slice_group_emit
    (conns : string -> list Connection) (stringify : ServerMessage -> string)
    (uuid : nat -> string) (now : Z) (s : SchedulerState) :
  isProcessing s = false -> messageQueue s <> [] ->
  let n := Z.to_nat (effectiveBatchSize (broadcastBatchSize s)) in
  let sorted := sortQueue (messageQueue s) in
  let '(batch, outs, s', _) := processQueue conns stringify uuid now s in
  sorted ≡ₚ messageQueue s /\ StronglySorted task_le sorted /\
  batch = take n sorted /\ messageQueue s' = drop n sorted /\
  NoDup (map fst (groupByType batch)) /\
  (forall k ts, In (k, ts) (groupByType batch) ->
     ts = tasks_of_type k batch /\ ts <> []) /\
  (forall t, In t batch -> In (task_type t) (map fst (groupByType batch))) /\
  map (fun o => (out_type o, out_tasks o)) outs =
    List.filter (fun g => negb (Nat.eqb (length (conns (fst g))) 0)) (groupByType batch) /\
  (forall o, In o outs ->
    (forall t, out_tasks o = [t] ->
       event (out_message o) = task_event t /\ data (out_message o) = task_data t) /\
    ((1 < length (out_tasks o))%nat ->
       event (out_message o) = "batch_update" /\
       data (out_message o) = JObj [("events", JArr (map batch_entry (out_tasks o)))]) /\
    out_serialized o = stringify (out_message o) /\
    out_writes o = map (fun c => (conn_id c, out_serialized o))
                       (List.filter (fun c => isAlive c && socket_open c) (conns (out_type o)))).
Proof.
  intros Hp Hq n sorted. unfold processQueue.
  rewrite Hp. destruct (messageQueue s) as [|t q] eqn:Eq; [congruence|]. simpl.
  rewrite broadcastBatch_groups.
  destruct (groupByType_spec (take n sorted)) as (Hnd & Hgs & Hcov).
  split; [apply sortQueue_perm|]. split; [apply sortQueue_sorted|].
  split; [reflexivity|]. split; [reflexivity|].
  split; [assumption|]. split; [assumption|]. split; [assumption|].
  split; [apply broadcast_groups_groups|].
  intros o Hin.
  apply broadcast_groups_out in Hin as (_ & _ & [j Hm] & Hs & Hw).
  split; [|split; [|split; [assumption|]]].
  - intros t0 Ht0. rewrite Hm, Ht0. split; reflexivity.
  - intros Hlen. rewrite Hm. destruct (out_tasks o) as [|t0 [|t1 ts]];
      simpl in Hlen; try lia. split; reflexivity.
  - rewrite Hw. apply sendToConnection_all.
Qed.

(** C4 counterexample: a [normal] status task at t=1 and a [high] one at
    t=5 form one [batch_update] whose [data.events] timestamps are
    [5; 1], which is not non-decreasing. *)
Lemma batch_update_timestamps_decrease :
  exists o,
    In o (snd (fst (fst (processQueue Scenarios.one_subscriber
            Scenarios.stringify_event Scenarios.uuid_const 0
            Scenarios.mixed_priority_queue)))) /\
    event (out_message o) = "batch_update" /\
    batch_event_timestamps (out_message o) = [5; 1] /\
    nondecreasing (batch_event_timestamps (out_message o)) = false.
Proof.
  vm_compute. eexists. split; [left; reflexivity|]. repeat split.
Qed.

(** C6 counterexample: with [broadcastBatchSize = 0] the drain still
    takes a task ([0 || 100] is 100). *)
Lemma drain_ignores_zero_batch_size :
  let '(batch, _, _, _) := processQueue Scenarios.one_subscriber
       Scenarios.stringify_event Scenarios.uuid_const 0
       Scenarios.zero_batch_size_queue in
  (Z.to_nat (broadcastBatchSize Scenarios.zero_batch_size_queue) < length batch)%nat.
Proof. vm_compute. lia. Qed.

(** Witness of [drain_sort_slice_group_emit]. *)
Lemma drain_sort_slice_group_emit_witness :
  isProcessing Scenarios.mixed_priority_queue = false /\
  messageQueue Scenarios.mixed_priority_queue <> [] /\
  (let '(batch, _, _, _) := processQueue Scenarios.one_subscriber
       Scenarios.stringify_event Scenarios.uuid_const 0
       Scenarios.mixed_priority_queue in
   batch = take 100 (sortQueue (messageQueue Scenarios.mixed_priority_queue))).
Proof.
  assert (Hp : isProcessing Scenarios.mixed_priority_queue = false) by reflexivity.
  assert (Hq : messageQueue Scenarios.mixed_priority_queue <> []) by discriminate.
  split; [exact Hp|]. split; [exact Hq|].
  pose proof (drain_sort_slice_group_emit Scenarios.one_subscriber
       Scenarios.stringify_event Scenarios.uuid_const 0
       Scenarios.mixed_priority_queue Hp Hq) as H.
  simpl in H |- *. destruct H as (_ & _ & Hb & _). exact Hb.
Defined.

Lemma sortQueue_sorted_id l : StronglySorted task_le l -> sortQueue l = l.
Proof.
  induction 1 as [|x l Hl IH Hx]; simpl; [reflexivity|]. rewrite IH.
  destruct l as [|y l]; [reflexivity|]. simpl.
  apply Forall_inv, compareTasks_le, Z.leb_le in Hx. now rewrite Hx.
Qed.

Lemma StronglySorted_drop {A} (R : A -> A -> Prop) n l :
  StronglySorted R l -> StronglySorted R (drop n l).
Proof.
  intros H. rewrite <- (take_drop n l) in H.
  now apply StronglySorted_app_inv in H as [_ [H _]].
Qed.

(** A drain of a non-empty queue when no drain is running. *)
Lemma processQueue_nonempty conns stringify uuid now q b :
  q <> [] ->
  let n := Z.to_nat (effectiveBatchSize b) in
  exists outs,
    processQueue conns stringify uuid now (mkState q false b) =
    (take n (sortQueue q), outs, mkState (drop n (sortQueue q)) false b,
     negb (Nat.eqb (length (drop n (sortQueue q))) 0)).
Proof.
  intros Hq n. unfold processQueue. cbn [isProcessing messageQueue orb].
  destruct q as [|t q]; [contradiction|]. cbn [length Nat.eqb].
  eexists. reflexivity.
Qed.

(** With [broadcastBatchSize] not negative, the chain of drains started
    on a queue of [n] tasks (each drain rescheduling the next while tasks
    remain, nothing enqueued meanwhile) ends within [n] drains with the
    queue empty; the batches, each of at most [broadcastBatchSize || 100]
    tasks, together hand every queued task to [broadcastBatch] exactly
    once, in (priority, timestamp) order. *)
Theorem drain_chain_delivers_each_task_once
    (conns : string -> list Connection) (stringify : ServerMessage -> string)
    (uuid : nat -> string) (now : Z) (fuel : nat) (q : list BroadcastTask) (b : Z) :
  0 <= b -> (length q <= fuel)%nat ->
  let '(batches, s') := drain_all conns stringify uuid now fuel (mkState q false b) in
  concat batches = sortQueue q /\ messageQueue s' = [] /\
  Forall (fun batch => length batch <= Z.to_nat (effectiveBatchSize b))%nat batches.
Proof.
  intros Hb. assert (HB : (1 <= Z.to_nat (effectiveBatchSize b))%nat).
  { unfold effectiveBatchSize. destruct (Z.eqb_spec b 0); lia. }
  set (n := Z.to_nat (effectiveBatchSize b)) in *.
  revert q. induction fuel as [|fuel IH]; intros q Hlen.
  - destruct q; [|cbn in Hlen; lia]. cbn. auto.
  - destruct (decide (q = [])) as [->|Hq].
    + cbn. repeat constructor. cbn. lia.
    + cbn [drain_all]. destruct (processQueue_nonempty conns stringify uuid now q b Hq)
        as [outs E]. fold n in E. rewrite E.
      pose proof (sortQueue_perm q) as Hp. apply Permutation_length in Hp.
      pose proof (sortQueue_sorted q) as Hs.
      destruct (Nat.eqb_spec (length (drop n (sortQueue q))) 0) as [Hz|Hnz]; cbn [negb].
      * apply nil_length_inv in Hz. cbn. rewrite app_nil_r.
        split; [|split; [exact Hz|]].
        -- rewrite <- (take_drop n (sortQueue q)) at 2. rewrite Hz. apply eq_sym, app_nil_r.
        -- constructor; [|constructor]. rewrite length_take. lia.
      * assert (Hlen' : (length (drop n (sortQueue q)) <= fuel)%nat)
          by (rewrite length_drop; lia).
        specialize (IH _ Hlen').
        destruct (drain_all conns stringify uuid now fuel _) as [batches s''].
        destruct IH as (Hc & He & Hf). cbn [concat].
        split; [|split; [exact He|]].
        -- rewrite Hc, (sortQueue_sorted_id (drop n (sortQueue q)))
             by (now apply StronglySorted_drop).
           apply take_drop.
        -- constructor; [|exact Hf]. rewrite length_take. lia.
Qed.

(** Witness of [drain_chain_delivers_each_task_once]: three tasks,
    batches of two. *)
Lemma drain_chain_delivers_each_task_once_witness :
  let q := [mkTask "status" "a" JNull low 1; mkTask "stats" "b" JNull high 2;
            mkTask "status" "c" JNull normal 3] in
  let '(batches, s') := drain_all Scenarios.one_subscriber Scenarios.stringify_event
                          Scenarios.uuid_const 0 3 (mkState q false 2) in
  concat batches = sortQueue q /\ messageQueue s' = [] /\
  Forall (fun batch => length batch <= Z.to_nat (effectiveBatchSize 2))%nat batches.
Proof.
  intros q. apply (drain_chain_delivers_each_task_once _ _ _ _ 3 q 2); [lia|cbn; lia].
Defined.

(** A negative [broadcastBatchSize] is truthy, so it is kept, and
    [splice(0, n)] with [n < 0] removes nothing: every drain of a
    non-empty queue takes an empty batch and schedules the next one, for
    ever; no task is ever broadcast and all stay queued. *)
Theorem negative_batch_size_never_drains
    (conns : string -> list Connection) (stringify : ServerMessage -> string)
    (uuid : nat -> string) (now : Z) (fuel : nat) (q : list BroadcastTask) (b : Z) :
  b < 0 -> q <> [] ->
  let '(batches, s') := drain_all conns stringify uuid now fuel (mkState q false b) in
  length batches = fuel /\ Forall (fun batch => batch = []) batches /\
  messageQueue s' ≡ₚ q.
Proof.
  intros Hb. assert (Hn : Z.to_nat (effectiveBatchSize b) = 0%nat).
  { unfold effectiveBatchSize. destruct (Z.eqb_spec b 0); lia. }
  revert q. induction fuel as [|fuel IH]; intros q Hq; [cbn; auto|].
  cbn [drain_all]. destruct (processQueue_nonempty conns stringify uuid now q b Hq) as [outs E].
  rewrite Hn in E. rewrite E. rewrite take_0, drop_0.
  assert (Hq' : sortQueue q <> []).
  { intros H. apply Hq, nil_length_inv. rewrite <- (Permutation_length (sortQueue_perm q)), H.
    reflexivity. }
  destruct (Nat.eqb_spec (length (sortQueue q)) 0) as [Hz|_];
    [apply nil_length_inv in Hz; contradiction|cbn [negb]].
  specialize (IH _ Hq').
  destruct (drain_all conns stringify uuid now fuel _) as [batches s''].
  destruct IH as (Hl & Hall & Hp). cbn [length].
  split; [lia|split; [now constructor|]].
  rewrite Hp. apply sortQueue_perm.
Qed.

(** Witness of [negative_batch_size_never_drains]. *)
Lemma negative_batch_size_never_drains_witness :
  let '(batches, s') := drain_all Scenarios.one_subscriber Scenarios.stringify_event
        Scenarios.uuid_const 0 5
        (mkState [mkTask "stats" "stats_update" JNull normal 7] false (-1)) in
  length batches = 5%nat /\ Forall (fun batch => batch = []) batches /\
  messageQueue s' ≡ₚ [mkTask "stats" "stats_update" JNull normal 7].
Proof.
  apply (negative_batch_size_never_drains _ _ _ _ 5 _ (-1)); [lia|discriminate].
Defined.

#[local] Instance MessagePriority_eq_dec : EqDecision MessagePriority.
Proof. solve_decision. Defined.

Lemma priorityWeight_high t : priorityWeight (task_priority t) <= 0 -> task_priority t = high.
Proof. destruct (task_priority t); cbn; intros; [reflexivity|lia|lia]. Qed.

(** [enqueue] of a [high] task while no drain is running drains at once:
    when fewer than [broadcastBatchSize || 100] [high] tasks were already
    queued, the new task is in the batch broadcast by that call, ahead of
    every queued [normal] and [low] task, and the batch plus the tasks
    left queued are the old queue plus the new task. A [normal] or [low]
    task is only appended, and waits for the next flush. *)
Theorem high_enqueue_drains_at_once
    (conns : string -> list Connection) (stringify : ServerMessage -> string)
    (uuid : nat -> string) (now : Z) (s : SchedulerState) (task : BroadcastTask) :
  isProcessing s = false -> task_priority task = high ->
  (length (filter (fun t => task_priority t = high) (messageQueue s))
     < Z.to_nat (effectiveBatchSize (broadcastBatchSize s)))%nat ->
  (let '(batch, _, s', _) := enqueue conns stringify uuid now s task in
   In task batch /\
   (forall t, In t batch -> task_priority t <> high -> In t (messageQueue s) /\
      exists l1 l2, batch = l1 ++ task :: l2 /\ In t l2) /\
   batch ++ messageQueue s' ≡ₚ messageQueue s ++ [task]) /\
  (forall task', task_priority task' <> high ->
     enqueue conns stringify uuid now s task' =
     ([], [], mkState (messageQueue s ++ [task']) (isProcessing s) (broadcastBatchSize s), false)).
Proof.
  intros Hp Hh Hcount. split.
  2:{ intros task' Hne. unfold enqueue. destruct (task_priority task'); [contradiction|reflexivity|reflexivity]. }
  destruct s as [q p b]. cbn [isProcessing messageQueue broadcastBatchSize] in *. subst p.
  unfold enqueue. rewrite Hh. cbn [messageQueue isProcessing broadcastBatchSize].
  set (n := Z.to_nat (effectiveBatchSize b)) in *.
  assert (Hne : q ++ [task] <> []) by (destruct q; discriminate).
  destruct (processQueue_nonempty conns stringify uuid now (q ++ [task]) b Hne) as [outs E].
  fold n in E. rewrite E. cbn [messageQueue].
  set (sorted := sortQueue (q ++ [task])).
  assert (Hperm : sorted ≡ₚ q ++ [task]) by apply sortQueue_perm.
  assert (Hs : StronglySorted task_le sorted) by apply sortQueue_sorted.
  assert (Hin : In task sorted).
  { apply list_elem_of_In. rewrite Hperm. apply list_elem_of_In. apply in_or_app. simpl; auto. }
  apply in_split in Hin as (l1 & l2 & Hsplit).
  rewrite Hsplit in Hs. apply StronglySorted_app_inv in Hs as (_ & Hs2 & H12).
  assert (Hl1 : forall x, In x l1 -> task_priority x = high).
  { intros x Hx. apply priorityWeight_high. specialize (H12 x task Hx (or_introl eq_refl)).
    destruct H12 as [H|[H _]]; rewrite Hh in H; cbn in H; destruct (task_priority x); cbn in *; lia. }
  assert (Hp12 : l1 ++ l2 ≡ₚ q).
  { rewrite <- (app_nil_r q). apply (Permutation_app_inv l1 l2 q [] task).
    rewrite <- Hsplit. exact Hperm. }
  assert (Hlen1 : (length l1 < n)%nat).
  { eapply Nat.le_lt_trans; [|exact Hcount].
    assert (Hf : filter (fun t => task_priority t = high) l1 = l1).
    { clear -Hl1. induction l1 as [|x l1 IH]; [reflexivity|].
      rewrite filter_cons_True by (apply Hl1; left; reflexivity).
      f_equal. apply IH. intros y Hy. apply Hl1. right. exact Hy. }
    rewrite <- Hf at 1.
    rewrite <- (Permutation_length (filter_Permutation (fun t => task_priority t = high) _ _ Hp12)),
      filter_app, length_app. lia. }
  assert (Htake : take n sorted = l1 ++ task :: take (n - length l1 - 1) l2).
  { rewrite Hsplit, take_app, take_ge by lia.
    remember (n - length l1 - 1)%nat as k eqn:Hk.
    replace (n - length l1)%nat with (S k) by lia. reflexivity. }
  rewrite Htake. split; [|split].
  - apply in_or_app. simpl. auto.
  - intros t Ht Htn. apply in_app_or in Ht as [Ht|[<-|Ht]].
    + exfalso. exact (Htn (Hl1 t Ht)).
    + contradiction.
    + split.
      * apply list_elem_of_In. rewrite <- Hp12. apply list_elem_of_In, in_or_app. right.
        rewrite <- (take_drop (n - length l1 - 1) l2). apply in_or_app. left. exact Ht.
      * exists l1, (take (n - length l1 - 1) l2). auto.
  - rewrite <- Hperm. unfold sorted. rewrite <- (take_drop n (sortQueue (q ++ [task]))) at 2.
    fold sorted. rewrite Htake. reflexivity.
Qed.

(** Witness of [high_enqueue_drains_at_once]: a [high] task enqueued
    behind a [low] and a [high] task, default batch size. *)
Lemma high_enqueue_drains_at_once_witness :
  let s := mkState [mkTask "status" "a" JNull low 1; mkTask "stats" "b" JNull high 2] false 0 in
  let task := mkTask "status" "c" JNull high 3 in
  (length (filter (fun t => task_priority t = high) (messageQueue s))
     < Z.to_nat (effectiveBatchSize (broadcastBatchSize s)))%nat /\
  let '(batch, _, s', _) := enqueue Scenarios.one_subscriber Scenarios.stringify_event
                              Scenarios.uuid_const 0 s task in
  In task batch /\
  (forall t, In t batch -> task_priority t <> high -> In t (messageQueue s) /\
     exists l1 l2, batch = l1 ++ task :: l2 /\ In t l2) /\
  batch ++ messageQueue s' ≡ₚ messageQueue s ++ [task].
Proof.
  intros s task.
  assert (Hc : (length (filter (fun t => task_priority t = high) (messageQueue s))
     < Z.to_nat (effectiveBatchSize (broadcastBatchSize s)))%nat) by (vm_compute; lia).
  split; [exact Hc|].
  exact (proj1 (high_enqueue_drains_at_once Scenarios.one_subscriber Scenarios.stringify_event
                  Scenarios.uuid_const 0 s task eq_refl eq_refl Hc)).
Defined.

End HubSchedulerFacts.

Module RouterFacts.
Import Router.

Lemma step_keeps_error_unsubscribed (r : MessageRouter) (op : RouterOp) :
  subscribers r !! "error" = None -> subscribers (step r op) !! "error" = None.
Proof.
  intros H. destruct op as [t cb | t cb | t n]; cbn [step].
  - unfold subscribe. destruct (includes RESERVED_TYPES t) eqn:E; cbn [snd subscribers];
      [exact H |].
    rewrite lookup_insert_ne; [exact H |]. intros ->. discriminate E.
  - unfold unsubscribe. destruct (subscribers r !! t) eqn:E; cbn [subscribers]; [| exact H].
    rewrite lookup_insert_ne; [exact H |]. intros ->. congruence.
  - exact H.
Qed.

Lemma run_keeps_error_unsubscribed (ops : list RouterOp) (r : MessageRouter) :
  subscribers r !! "error" = None -> subscribers (run r ops) !! "error" = None.
Proof.
  revert r. induction ops as [| op ops IH]; intros r H; simpl; [exact H |].
  apply IH, step_keeps_error_unsubscribed, H.
Qed.

(** C5: whatever sequence of subscribe, unsubscribe and publish calls a
    client makes on a fresh router, the registry never gets an entry for
    the reserved type ['error']; and every [subscribe('error', cb)]
    fails with the reserved-type error and leaves the router as it was. *)
Theorem reserved_type_never_subscribed (maxSize : option Z) (ops : list RouterOp) :
  subscribers (run (create maxSize) ops) !! "error" = None /\
  forall (r : MessageRouter) (cb : Callback),
    subscribe r "error" cb = (SubscribeFailed (reserved_error "error"), r).
Proof.
  split.
  - apply run_keeps_error_unsubscribed. reflexivity.
  - intros r cb. reflexivity.
Qed.

(** Every subscriber set of the registry is duplicate-free. *)
Definition sets_nodup (r : MessageRouter) : Prop :=
  forall t l, subscribers r !! t = Some l -> NoDup l.

Lemma existsb_eqb_in cb l : existsb (Nat.eqb cb) l = true <-> cb ∈ l.
Proof.
  rewrite existsb_exists, list_elem_of_In. split.
  - intros (x & Hx & E). apply Nat.eqb_eq in E. now subst.
  - intros H. exists cb. split; [exact H|apply Nat.eqb_refl].
Qed.

Lemma set_add_nodup cb l : NoDup l -> NoDup (set_add cb l).
Proof.
  intros H. unfold set_add. destruct (existsb (Nat.eqb cb) l) eqn:E; [exact H|].
  apply NoDup_app. split; [exact H|]. split; [|apply NoDup_singleton].
  intros x Hx ->%list_elem_of_singleton.
  apply existsb_eqb_in in Hx. congruence.
Qed.

Lemma set_delete_nodup cb l : NoDup l -> NoDup (set_delete cb l).
Proof. intros H. unfold set_delete. now apply NoDup_filter. Qed.

Lemma set_delete_notin cb l : cb ∉ l -> set_delete cb l = l.
Proof.
  unfold set_delete. induction l as [|a l IH]; intros Hn; [reflexivity|].
  rewrite filter_cons. rewrite elem_of_cons in Hn.
  destruct (decide (Is_true (negb (Nat.eqb a cb)))) as [_|Hd].
  - f_equal. apply IH. tauto.
  - exfalso. apply Hd. destruct (Nat.eqb_spec a cb); [subst; tauto|constructor].
Qed.

Lemma set_delete_snoc_notin cb l : cb ∉ l -> set_delete cb (l ++ [cb]) = l.
Proof.
  unfold set_delete. induction l as [|a l IH]; intros Hn; cbn [app].
  - rewrite filter_cons. destruct (decide (Is_true (negb (Nat.eqb cb cb)))) as [Hd|_].
    + rewrite Nat.eqb_refl in Hd. destruct Hd.
    + reflexivity.
  - rewrite filter_cons. rewrite elem_of_cons in Hn.
    destruct (decide (Is_true (negb (Nat.eqb a cb)))) as [_|Hd].
    + f_equal. apply IH. tauto.
    + exfalso. apply Hd. destruct (Nat.eqb_spec a cb); [subst; tauto|constructor].
Qed.

Lemma set_delete_add_notin cb l : cb ∉ l -> set_delete cb (set_add cb l) = l.
Proof.
  intros Hn. unfold set_add.
  destruct (existsb (Nat.eqb cb) l) eqn:E; [apply existsb_eqb_in in E; contradiction|].
  now apply set_delete_snoc_notin.
Qed.

Lemma step_sets_nodup r op : sets_nodup r -> sets_nodup (step r op).
Proof.
  intros H t' l'. destruct op as [t cb | t cb | t n]; cbn [step].
  - unfold subscribe. destruct (includes RESERVED_TYPES t); cbn [snd subscribers]; [apply H|].
    destruct (decide (t' = t)) as [->|Hne].
    + rewrite lookup_insert_eq. intros [= <-]. apply set_add_nodup.
      destruct (subscribers r !! t) as [l|] eqn:E; cbn; [exact (H t l E)|constructor].
    + rewrite lookup_insert_ne by congruence. apply H.
  - unfold unsubscribe. destruct (subscribers r !! t) as [l|] eqn:E; cbn [subscribers]; [|apply H].
    destruct (decide (t' = t)) as [->|Hne].
    + rewrite lookup_insert_eq. intros [= <-]. apply set_delete_nodup, (H t l E).
    + rewrite lookup_insert_ne by congruence. apply H.
  - apply H.
Qed.

Lemma run_sets_nodup ops r : sets_nodup r -> sets_nodup (run r ops).
Proof.
  revert r. induction ops as [|op ops IH]; intros r H; simpl; [exact H|].
  apply IH, step_sets_nodup, H.
Qed.

Lemma run_maxMessageSize ops r : maxMessageSize (run r ops) = maxMessageSize r.
Proof.
  revert r. induction ops as [|op ops IH]; intros r; simpl; [reflexivity|].
  rewrite IH. destruct op as [t cb|t cb|t n]; cbn [step]; [|unfold unsubscribe|reflexivity].
  - unfold subscribe. destruct (includes RESERVED_TYPES t); reflexivity.
  - destruct (subscribers r !! t); reflexivity.
Qed.

(** Subscribing one callback twice to a type keeps a single copy: after
    any sequence of subscribe, unsubscribe and publish calls on a new
    router, the callbacks an accepted [publish] invokes are pairwise
    distinct, so each subscribed callback runs once per message. *)
Theorem publish_invokes_each_callback_once (maxSize : option Z) (ops : list RouterOp)
    (type : string) (messageSize : Z) (cbs : list Callback) :
  publish (run (create maxSize) ops) type messageSize = Some cbs -> NoDup cbs.
Proof.
  unfold publish. destruct (_ <? messageSize); [discriminate|]. intros [= <-].
  destruct (subscribers (run (create maxSize) ops) !! type) as [l|] eqn:E; cbn; [|constructor].
  eapply (run_sets_nodup ops (create maxSize)); [|exact E].
  intros t l'. cbn. rewrite lookup_empty. discriminate.
Qed.

(** Witness of [publish_invokes_each_callback_once]: callback 1 is
    subscribed twice to ['status'] and runs once. *)
Lemma publish_invokes_each_callback_once_witness :
  publish (run (create None) [OpSubscribe "status" 1%nat; OpSubscribe "status" 1%nat;
                              OpSubscribe "status" 2%nat]) "status" 10 = Some [1; 2]%nat /\
  NoDup [1; 2]%nat.
Proof.
  assert (H : publish (run (create None) [OpSubscribe "status" 1%nat; OpSubscribe "status" 1%nat;
                              OpSubscribe "status" 2%nat]) "status" 10 = Some [1; 2]%nat)
    by reflexivity.
  split; [exact H|]. exact (publish_invokes_each_callback_once _ _ _ _ _ H).
Defined.

(** The size limit is fixed at construction ([options.maxMessageSize],
    65536 bytes by default) and no later call changes it: [publish]
    rejects a message exactly when its computed size is above that
    limit, so a message of exactly the limit is delivered. *)
Theorem publish_size_limit (maxSize : option Z) (ops : list RouterOp)
    (type : string) (messageSize : Z) :
  publish (run (create maxSize) ops) type messageSize = None <->
  default DEFAULT_MAX_MESSAGE_SIZE maxSize < messageSize.
Proof.
  unfold publish. rewrite run_maxMessageSize. cbn [maxMessageSize create].
  destruct (Z.ltb_spec (default DEFAULT_MAX_MESSAGE_SIZE maxSize) messageSize);
    split; intros; (discriminate || lia || reflexivity).
Qed.

(** For a type other than ['error']: subscribing a callback that is not
    yet in the type's set adds one to [getSubscriberCount(type)], and
    calling the returned [unsubscribe] gives back the callbacks the type
    had before; subscribing a callback already in the set changes
    nothing. Other types are never touched. *)
Theorem subscribe_count_and_unsubscribe (r : MessageRouter) (type : string) (cb : Callback) :
  includes RESERVED_TYPES type = false ->
  let r1 := snd (subscribe r type cb) in
  (forall t', t' <> type -> subscribers r1 !! t' = subscribers r !! t') /\
  (cb ∉ default [] (subscribers r !! type) ->
     getSubscriberCount r1 type = S (getSubscriberCount r type) /\
     default [] (subscribers (unsubscribe r1 type cb) !! type) =
       default [] (subscribers r !! type) /\
     (forall t', t' <> type ->
        subscribers (unsubscribe r1 type cb) !! t' = subscribers r !! t')) /\
  (cb ∈ default [] (subscribers r !! type) -> r1 = r).
Proof.
  intros Hres r1. unfold r1, subscribe. rewrite Hres. cbn [snd subscribers].
  split; [|split].
  - intros t' Hne. now rewrite lookup_insert_ne by congruence.
  - intros Hnot. unfold getSubscriberCount, unsubscribe. cbn [subscribers].
    rewrite !lookup_insert_eq. cbn [subscribers default]. rewrite lookup_insert_eq.
    cbn [default]. rewrite set_delete_add_notin by exact Hnot.
    split; [|split; [reflexivity|]].
    + unfold set_add. destruct (existsb (Nat.eqb cb) _) eqn:E;
        [apply existsb_eqb_in in E; contradiction|].
      unfold id. rewrite length_app. simpl. lia.
    + intros t' Hne. now rewrite !lookup_insert_ne by congruence.
  - intros Hin. destruct r as [mx subs]. cbn [subscribers maxMessageSize] in *.
    unfold set_add. apply existsb_eqb_in in Hin. rewrite Hin.
    destruct (subs !! type) as [l|] eqn:E; cbn in Hin |- *.
    + f_equal. now apply insert_id.
    + discriminate.
Qed.

(** Witness of [subscribe_count_and_unsubscribe] on a new router. *)
Lemma subscribe_count_and_unsubscribe_witness :
  getSubscriberCount (snd (subscribe (create None) "status" 7%nat)) "status" =
    S (getSubscriberCount (create None) "status").
Proof.
  apply (subscribe_count_and_unsubscribe (create None) "status" 7%nat eq_refl).
  cbn. apply not_elem_of_nil.
Defined.

End RouterFacts.

Module DetectorFacts.
Import Detector.

Lemma Qgtb_true (a b : Q) : Qgtb a b = true <-> (b < a)%Q.
Proof.
  unfold Qgtb. rewrite negb_true_iff. split; intros H.
  - apply Qnot_le_lt. intros Hle. apply Qle_bool_iff in Hle. congruence.
  - destruct (Qle_bool a b) eqn:E; [| reflexivity].
    apply Qle_bool_iff in E. exfalso. exact (Qlt_not_le b a H E).
Qed.

Lemma Qgtb_false (a b : Q) : Qgtb a b = false <-> (a <= b)%Q.
Proof. unfold Qgtb. rewrite negb_false_iff. apply Qle_bool_iff. Qed.

Lemma AlertLevel_eqb_spec (a b : AlertLevel) : AlertLevel_eqb a b = true <-> a = b.
Proof. destruct a, b; simpl; split; congruence. Qed.

Lemma getAlertLevel_spec (v T : Q) :
  (getAlertLevel v T = critical <-> (T + 15 < v)%Q) /\
  (getAlertLevel v T = warning <-> (T < v)%Q /\ (v <= T + 15)%Q) /\
  (getAlertLevel v T = info <-> (v <= T)%Q).
Proof.
  unfold getAlertLevel.
  destruct (Qgtb v (T + 15)) eqn:E1;
    [apply Qgtb_true in E1 | apply Qgtb_false in E1;
     destruct (Qgtb v T) eqn:E2; [apply Qgtb_true in E2 | apply Qgtb_false in E2]];
    repeat split; intros; try discriminate; try reflexivity; try lra;
    match goal with H : _ /\ _ |- _ => destruct H; lra end.
Qed.

Lemma health_events_app (n : string) (l1 l2 : list Broadcast) :
  health_events n (l1 ++ l2) = health_events n l1 ++ health_events n l2.
Proof. unfold health_events. apply filter_app. Qed.

Lemma health_check_step_events (m : gmap string HealthRecord) (c : HealthCheck) :
  health_events (check_name c) (fst (health_check_step m c)) = fst (health_check_step m c).
Proof.
  unfold health_check_step.
  destruct (m !! check_name c) as [r |];
    destruct (getAlertLevel (check_value c) (check_threshold c));
    try destruct (hr_level r); cbn -[insert];
    unfold health_events; cbn; rewrite ?bool_decide_eq_true_2; reflexivity.
Qed.

Lemma health_check_step_other (m : gmap string HealthRecord) (c : HealthCheck) (n : string) :
  check_name c <> n ->
  health_events n (fst (health_check_step m c)) = [] /\
  snd (health_check_step m c) !! n = m !! n.
Proof.
  intros Hne. unfold health_check_step.
  destruct (m !! check_name c) as [r |];
    destruct (getAlertLevel (check_value c) (check_threshold c));
    try destruct (hr_level r); cbn -[insert lookup];
    unfold health_events; cbn -[insert lookup];
    rewrite ?bool_decide_eq_false_2 by congruence;
    rewrite ?lookup_insert_ne by exact Hne; split; reflexivity.
Qed.

Lemma health_check_step_level (m : gmap string HealthRecord) (c : HealthCheck) :
  option_map hr_level (snd (health_check_step m c) !! check_name c) =
  Some (getAlertLevel (check_value c) (check_threshold c)).
Proof.
  unfold health_check_step.
  destruct (m !! check_name c) as [r |] eqn:Em.
  - destruct (negb (AlertLevel_eqb (hr_level r) (getAlertLevel (check_value c) (check_threshold c))))
      eqn:E; cbn -[insert lookup].
    + rewrite lookup_insert_eq. reflexivity.
    + rewrite Em. apply negb_false_iff, AlertLevel_eqb_spec in E. simpl. congruence.
  - cbn -[insert lookup]. rewrite lookup_insert_eq. reflexivity.
Qed.

(** The events of one check against the level recorded before it. *)
Lemma health_check_step_spec (m : gmap string HealthRecord) (c : HealthCheck) :
  let prev := option_map hr_level (m !! check_name c) in
  let cur := getAlertLevel (check_value c) (check_threshold c) in
  let evs := fst (health_check_step m c) in
  (prev = Some cur -> evs = []) /\
  (cur <> info -> prev <> Some cur ->
     evs = [mkBroadcast "health" "health_alert"
              (HealthAlertData (mkAlert cur (check_name c) (check_threshold c) (check_value c)))
              (if AlertLevel_eqb cur critical then HubScheduler.high else HubScheduler.normal)]) /\
  (cur = info -> forall l, prev = Some l -> l <> info ->
     evs = [mkBroadcast "health" "health_recovery" (HealthRecoveryData (check_name c))
              HubScheduler.normal]) /\
  (cur = info -> prev = None -> evs = []).
Proof.
  cbv zeta. unfold health_check_step.
  destruct (m !! check_name c) as [[v0 lv] |];
    destruct (getAlertLevel (check_value c) (check_threshold c));
    try destruct lv; cbn -[insert];
    repeat split; intros; try reflexivity; congruence.
Qed.

Lemma health_check_step_prev (m m' : gmap string HealthRecord) (c : HealthCheck) :
  m !! check_name c = m' !! check_name c ->
  fst (health_check_step m c) = fst (health_check_step m' c).
Proof. intros E. unfold health_check_step. rewrite E. destruct (_ : bool); reflexivity. Qed.

Lemma checkHealthAlerts_three (cfg : ChangeDetectorConfig) (st : SystemStatus)
    (m : gmap string HealthRecord) :
  let c1 := mkCheck "cpu" (cpuUsage st) (cpuThreshold cfg) in
  let c2 := mkCheck "memory" (memoryUsage st) (memoryThreshold cfg) in
  let c3 := mkCheck "disk" (diskUsage st) (diskThreshold cfg) in
  let m1 := snd (health_check_step m c1) in
  let m2 := snd (health_check_step m1 c2) in
  checkHealthAlerts cfg (Some st) m =
    (fst (health_check_step m c1) ++ fst (health_check_step m1 c2) ++
     fst (health_check_step m2 c3), snd (health_check_step m2 c3)).
Proof.
  cbv zeta. unfold checkHealthAlerts, checks. cbn [fold_left].
  destruct (health_check_step m (mkCheck "cpu" (cpuUsage st) (cpuThreshold cfg)))
    as [o1 m1]; simpl.
  destruct (health_check_step m1 (mkCheck "memory" (memoryUsage st) (memoryThreshold cfg)))
    as [o2 m2]; simpl.
  destruct (health_check_step m2 (mkCheck "disk" (diskUsage st) (diskThreshold cfg)))
    as [o3 m3]; simpl.
  rewrite <- app_assoc. reflexivity.
Qed.

Lemma check_of_cases (cfg : ChangeDetectorConfig) (st : SystemStatus) (name : string)
    (c : HealthCheck) :
  check_of cfg st name = Some c ->
  (name = "cpu" /\ c = mkCheck "cpu" (cpuUsage st) (cpuThreshold cfg)) \/
  (name = "memory" /\ c = mkCheck "memory" (memoryUsage st) (memoryThreshold cfg)) \/
  (name = "disk" /\ c = mkCheck "disk" (diskUsage st) (diskThreshold cfg)).
Proof.
  unfold check_of, checks. cbn [List.find check_name].
  destruct (String.eqb_spec "cpu" name) as [<- |]; [intros [= <-]; auto |].
  destruct (String.eqb_spec "memory" name) as [<- |]; [intros [= <-]; auto |].
  destruct (String.eqb_spec "disk" name) as [<- |]; [intros [= <-]; auto |].
  discriminate.
Qed.

Lemma check_of_name (cfg : ChangeDetectorConfig) (st : SystemStatus) (name : string)
    (c : HealthCheck) :
  check_of cfg st name = Some c -> check_name c = name.
Proof. intros H. apply check_of_cases in H as [[-> ->] | [[-> ->] | [-> ->]]]; reflexivity. Qed.

Lemma check_of_other_sample (cfg : ChangeDetectorConfig) (st st' : SystemStatus)
    (name : string) (c : HealthCheck) :
  check_of cfg st name = Some c -> exists c', check_of cfg st' name = Some c'.
Proof. intros H. apply check_of_cases in H as [[-> _] | [[-> _] | [-> _]]]; eexists; reflexivity. Qed.

Lemma checkStatusChange_health (cfg : ChangeDetectorConfig) (last : option SystemStatus)
    (st : SystemStatus) (name : string) :
  snd (checkStatusChange cfg last (Some st)) = Some st /\
  health_events name (fst (checkStatusChange cfg last (Some st))) = [].
Proof.
  unfold checkStatusChange. destruct last as [old |]; [destruct (detectStatusChanges old st) |];
    split; try reflexivity; unfold health_events; simpl;
    rewrite bool_decide_eq_false_2 by discriminate; reflexivity.
Qed.

(** One [checkAndBroadcast]: the health events about [name] are those of
    its check against the previously recorded level, and the recorded
    level becomes the sample's level. *)
Lemma checkAndBroadcast_health (cfg : ChangeDetectorConfig) (s : DetectorState)
    (st : SystemStatus) (name : string) (c : HealthCheck) :
  check_of cfg st name = Some c ->
  health_events name (fst (checkAndBroadcast cfg s st)) =
    fst (health_check_step (lastHealthStatus s) c) /\
  option_map hr_level (lastHealthStatus (snd (checkAndBroadcast cfg s st)) !! name) =
    Some (getAlertLevel (check_value c) (check_threshold c)).
Proof.
  intros Hc. unfold checkAndBroadcast.
  destruct (checkStatusChange_health cfg (lastStatus s) st name) as [Hl He].
  destruct (checkStatusChange cfg (lastStatus s) (Some st)) as [out1 last'].
  simpl in Hl, He. subst last'.
  rewrite checkHealthAlerts_three. cbn [fst snd lastHealthStatus].
  rewrite !health_events_app, He.
  set (m := lastHealthStatus s).
  apply check_of_cases in Hc as [[-> ->] | [[-> ->] | [-> ->]]].
  - set (c1 := mkCheck "cpu" _ _).
    set (m1 := snd (health_check_step m c1)).
    set (c2 := mkCheck "memory" _ _).
    set (m2 := snd (health_check_step m1 c2)).
    set (c3 := mkCheck "disk" _ _).
    destruct (health_check_step_other m1 c2 "cpu") as [E2 M2]; [discriminate |].
    destruct (health_check_step_other m2 c3 "cpu") as [E3 M3]; [discriminate |].
    rewrite E2, E3, (health_check_step_events m c1 : health_events "cpu" _ = _), !app_nil_r.
    split; [reflexivity |].
    rewrite M3. unfold m2. rewrite M2. exact (health_check_step_level m c1).
  - set (c1 := mkCheck "cpu" _ _).
    set (m1 := snd (health_check_step m c1)).
    set (c2 := mkCheck "memory" _ _).
    set (m2 := snd (health_check_step m1 c2)).
    set (c3 := mkCheck "disk" _ _).
    destruct (health_check_step_other m c1 "memory") as [E1 M1]; [discriminate |].
    destruct (health_check_step_other m2 c3 "memory") as [E3 M3]; [discriminate |].
    rewrite E1, E3, (health_check_step_events m1 c2 : health_events "memory" _ = _), app_nil_r.
    split.
    + apply health_check_step_prev. exact M1.
    + rewrite M3. exact (health_check_step_level m1 c2).
  - set (c1 := mkCheck "cpu" _ _).
    set (m1 := snd (health_check_step m c1)).
    set (c2 := mkCheck "memory" _ _).
    set (m2 := snd (health_check_step m1 c2)).
    set (c3 := mkCheck "disk" _ _).
    destruct (health_check_step_other m c1 "disk") as [E1 M1]; [discriminate |].
    destruct (health_check_step_other m1 c2 "disk") as [E2 M2]; [discriminate |].
    rewrite E1, E2, (health_check_step_events m2 c3 : health_events "disk" _ = _).
    split.
    + apply health_check_step_prev. transitivity (m1 !! "disk"); [exact M2 | exact M1].
    + exact (health_check_step_level m2 c3).
Qed.

Lemma run_cons (cfg : ChangeDetectorConfig) (s : DetectorState) (st : SystemStatus)
    (rest : list SystemStatus) :
  run cfg s (st :: rest) =
    fst (checkAndBroadcast cfg s st) :: run cfg (snd (checkAndBroadcast cfg s st)) rest.
Proof. simpl. destruct (checkAndBroadcast cfg s st). reflexivity. Qed.

(** Along a run, the health events about [name] for sample [i] are those
    of its check against a map recording the level of sample [i - 1]
    (or the initial record for the first sample). *)
Lemma run_health_events (cfg : ChangeDetectorConfig) (samples : list SystemStatus) :
  forall (s0 : DetectorState) (i : nat) (st : SystemStatus) (outs : list Broadcast)
         (name : string) (c : HealthCheck),
  samples !! i = Some st ->
  run cfg s0 samples !! i = Some outs ->
  check_of cfg st name = Some c ->
  exists m : gmap string HealthRecord,
    health_events name outs = fst (health_check_step m c) /\
    option_map hr_level (m !! name) =
      match i with
      | O => option_map hr_level (lastHealthStatus s0 !! name)
      | S j => st' ← samples !! j; c' ← check_of cfg st' name;
               Some (getAlertLevel (check_value c') (check_threshold c'))
      end.
Proof.
  induction samples as [| st0 rest IH]; intros s0 i st outs name c Hst Houts Hc;
    [discriminate |].
  rewrite run_cons in Houts.
  destruct i as [| j].
  - simpl in Hst, Houts. injection Hst as <-. injection Houts as <-.
    exists (lastHealthStatus s0). split; [| reflexivity].
    apply checkAndBroadcast_health, Hc.
  - simpl in Hst, Houts.
    destruct (IH _ j st outs name c Hst Houts Hc) as (m & Hev & Hprev).
    exists m. split; [exact Hev |]. rewrite Hprev.
    destruct j as [| j']; [| reflexivity].
    destruct (check_of_other_sample cfg st st0 name c Hc) as [c0 Hc0].
    simpl. rewrite Hc0. simpl.
    exact (proj2 (checkAndBroadcast_health cfg s0 st0 name c0 Hc0)).
Qed.


(** Spec scenario 6 on the model: CPU samples 70, 85, 96, 85, 70 with
    threshold 80 give no event, a warning alert, a critical alert of
    priority high, a warning alert, then a recovery. *)
Example spec_scenario6 :
  map (health_events "cpu") (run default_config DetectorScenarios.fresh DetectorScenarios.scenario6) =
  [[];
   [mkBroadcast "health" "health_alert" (HealthAlertData (mkAlert warning "cpu" 80 85))
      HubScheduler.normal];
   [mkBroadcast "health" "health_alert" (HealthAlertData (mkAlert critical "cpu" 80 96))
      HubScheduler.high];
   [mkBroadcast "health" "health_alert" (HealthAlertData (mkAlert warning "cpu" 80 85))
      HubScheduler.normal];
   [mkBroadcast "health" "health_recovery" (HealthRecoveryData "cpu") HubScheduler.normal]].
Proof. vm_compute. reflexivity. Qed.


Lemma calculateStatusPriority_detect (cfg : ChangeDetectorConfig) (old cur : SystemStatus) :
  calculateStatusPriority cfg (detectStatusChanges old cur) =
  if (negb (Qeq_bool (cpuUsage old) (cpuUsage cur)) && Qgtb (cpuUsage cur) (cpuThreshold cfg))
     || (negb (Qeq_bool (memoryUsage old) (memoryUsage cur))
         && Qgtb (memoryUsage cur) (memoryThreshold cfg))
  then HubScheduler.high
  else if Nat.ltb 3 (length (detectStatusChanges old cur)) then HubScheduler.normal
  else HubScheduler.low.
Proof.
  unfold calculateStatusPriority, detectStatusChanges, fieldsToMonitor, detect_field.
  simpl.
  destruct (Qeq_bool (cpuUsage old) (cpuUsage cur)),
           (Qeq_bool (memoryUsage old) (memoryUsage cur)),
           (Qeq_bool (diskUsage old) (diskUsage cur)),
           (Qeq_bool (activeConnections old) (activeConnections cur)),
           (Bool.eqb (systemOnline old) (systemOnline cur)); simpl;
    destruct (Qgtb (cpuUsage cur) (cpuThreshold cfg)),
             (Qgtb (memoryUsage cur) (memoryThreshold cfg)); reflexivity.
Qed.

Lemma changed_above_iff (a b T : Q) :
  (negb (Qeq_bool a b) && Qgtb b T) = true <-> ~ (a == b)%Q /\ (T < b)%Q.
Proof.
  rewrite andb_true_iff, negb_true_iff, Qgtb_true.
  split; intros [H1 H2]; split; try exact H2.
  - intros E. apply Qeq_bool_iff in E. congruence.
  - destruct (Qeq_bool a b) eqn:E; [| reflexivity]. apply Qeq_bool_iff in E. contradiction.
Qed.

(** C9 (as the code does it): when at least one monitored field changed,
    the one [status_update] task carries priority high exactly when a
    changed CPU or memory field's new value is above its threshold
    (whatever the old value was), otherwise normal when more than three
    fields changed, otherwise low. *)
Theorem status_update_priority (cfg : ChangeDetectorConfig) (old cur : SystemStatus) :
  detectStatusChanges old cur <> [] ->
  let changes := detectStatusChanges old cur in
  let hot := (~ (cpuUsage old == cpuUsage cur)%Q /\ (cpuThreshold cfg < cpuUsage cur)%Q) \/
             (~ (memoryUsage old == memoryUsage cur)%Q /\
              (memoryThreshold cfg < memoryUsage cur)%Q) in
  exists p,
    checkStatusChange cfg (Some old) (Some cur) =
      ([mkBroadcast "status" "status_update" (StatusChanged cur changes) p], Some cur) /\
    (p = HubScheduler.high <-> hot) /\
    (p = HubScheduler.normal <-> ~ hot /\ (3 < length changes)%nat) /\
    (p = HubScheduler.low <-> ~ hot /\ (length changes <= 3)%nat).
Proof.
  intros Hne. cbv zeta.
  exists (calculateStatusPriority cfg (detectStatusChanges old cur)). split.
  - unfold checkStatusChange.
    destruct (detectStatusChanges old cur) eqn:E; [contradiction | reflexivity].
  - rewrite calculateStatusPriority_detect.
    rewrite <- (changed_above_iff (cpuUsage old)), <- (changed_above_iff (memoryUsage old)).
    destruct (negb (Qeq_bool (cpuUsage old) (cpuUsage cur)) && Qgtb (cpuUsage cur) (cpuThreshold cfg));
    destruct (negb (Qeq_bool (memoryUsage old) (memoryUsage cur))
              && Qgtb (memoryUsage cur) (memoryThreshold cfg)); simpl;
    [| | | destruct (Nat.ltb_spec 3 (length (detectStatusChanges old cur)))];
    repeat split; intros; try discriminate; try reflexivity;
    intuition (try discriminate; try lia).
Qed.

(** Witness of [status_update_priority]: CPU moves from 75 to 85. *)
Lemma status_update_priority_witness :
  exists p,
    checkStatusChange default_config (Some (DetectorScenarios.cpu_sample 75))
      (Some (DetectorScenarios.cpu_sample 85)) =
    ([mkBroadcast "status" "status_update"
        (StatusChanged (DetectorScenarios.cpu_sample 85)
           (detectStatusChanges (DetectorScenarios.cpu_sample 75)
              (DetectorScenarios.cpu_sample 85))) p],
     Some (DetectorScenarios.cpu_sample 85)) /\ p = HubScheduler.high.
Proof.
  destruct (status_update_priority default_config (DetectorScenarios.cpu_sample 75)
              (DetectorScenarios.cpu_sample 85)) as (p & Hp & Hhigh & _);
    [vm_compute; discriminate |].
  exists p. split; [exact Hp |]. apply Hhigh. left.
  split; [vm_compute; discriminate | vm_compute; reflexivity].
Defined.

(** C9 counterexample: with [cpuThreshold = 80] and CPU going from 85 to
    86 (one changed field, no crossing: 85 is already above 80), the
    [status_update] task has priority high, not low. *)
Lemma above_threshold_without_crossing_is_high :
  (cpuThreshold default_config < cpuUsage (DetectorScenarios.cpu_sample 85))%Q /\
  length (detectStatusChanges (DetectorScenarios.cpu_sample 85)
            (DetectorScenarios.cpu_sample 86)) = 1%nat /\
  checkStatusChange default_config (Some (DetectorScenarios.cpu_sample 85))
    (Some (DetectorScenarios.cpu_sample 86)) =
  ([mkBroadcast "status" "status_update"
      (StatusChanged (DetectorScenarios.cpu_sample 86)
         (detectStatusChanges (DetectorScenarios.cpu_sample 85)
            (DetectorScenarios.cpu_sample 86))) HubScheduler.high],
   Some (DetectorScenarios.cpu_sample 86)).
Proof. split; [vm_compute; reflexivity | split; vm_compute; reflexivity]. Qed.

(** A status check that fetched a sample: the first one is broadcast
    whole at normal priority; after that the sample is broadcast exactly
    when one of the five monitored fields differs from the last sample
    (uptime, timestamp and version alone never trigger it). Either way the
    sample becomes [lastStatus]. A failed fetch broadcasts nothing and
    keeps [lastStatus]. *)
Theorem checkStatusChange_silent_iff_monitored_equal (cfg : ChangeDetectorConfig)
    (old cur : SystemStatus) (last : option SystemStatus) :
  checkStatusChange cfg None (Some cur) =
    ([mkBroadcast "status" "status_update" (StatusInitial cur) HubScheduler.normal], Some cur) /\
  snd (checkStatusChange cfg (Some old) (Some cur)) = Some cur /\
  (fst (checkStatusChange cfg (Some old) (Some cur)) = [] <->
     systemOnline old = systemOnline cur /\ (cpuUsage old == cpuUsage cur)%Q /\
     (memoryUsage old == memoryUsage cur)%Q /\ (diskUsage old == diskUsage cur)%Q /\
     (activeConnections old == activeConnections cur)%Q) /\
  checkStatusChange cfg last None = ([], last).
Proof.
  split; [reflexivity|]. split.
  { unfold checkStatusChange. destruct (detectStatusChanges old cur); reflexivity. }
  split; [|reflexivity].
  assert (Hq : forall a b : Q, negb (Qeq_bool a b) = false <-> (a == b)%Q).
  { intros a b. rewrite negb_false_iff. apply Qeq_bool_iff. }
  unfold checkStatusChange, detectStatusChanges, fieldsToMonitor, detect_field. cbn.
  rewrite <- !Hq.
  destruct (negb (Qeq_bool (cpuUsage old) (cpuUsage cur))),
           (negb (Qeq_bool (memoryUsage old) (memoryUsage cur))),
           (negb (Qeq_bool (diskUsage old) (diskUsage cur))),
           (negb (Qeq_bool (activeConnections old) (activeConnections cur)));
    destruct (systemOnline old), (systemOnline cur); cbn;
    split; intros H; try discriminate; try reflexivity;
    repeat match goal with H : _ /\ _ |- _ => destruct H end; try discriminate;
    repeat split; reflexivity.
Qed.

End DetectorFacts.

Module ClientFacts.
Import Wire Client.

(** C10 (as the code does it), for every parsed frame: a frame that is
    [null] (or [undefined]) makes reading [message.event] throw, so
    [onError('Failed to parse message')] fires and nothing is forwarded.
    Otherwise, a ['pong'] frame only sets [lastPongTime] to the current
    time; a frame whose event is neither ['pong'] nor ['connected'] is
    forwarded to [onMessage] unchanged; a ['connected'] frame whose
    [data] is present records a truthy [data.connectionId] and is then
    forwarded; a ['connected'] frame whose [data] is [null] or
    [undefined] (missing) makes reading [data.connectionId] throw, so
    [onError('Failed to parse message')] fires and nothing is forwarded.
    In the two failure cases the client state is left unchanged. *)
Theorem handleMessage_parsed_frames (now : Z) (s : ClientState) (frame : json) :
  ((frame = JNull \/ frame = JUndefined) ->
     handleMessage now (Some frame) s = (tt, s, [OnError "Failed to parse message"])) /\
  (forall ev, get_prop frame "event" = Some ev ->
  (is_string ev "pong" = true ->
     handleMessage now (Some frame) s = (tt, set_pong now s, [])) /\
  (is_string ev "pong" = false -> is_string ev "connected" = false ->
     handleMessage now (Some frame) s = (tt, s, [OnMessage frame])) /\
  (is_string ev "connected" = true ->
     forall data cid, get_prop frame "data" = Some data ->
     get_prop data "connectionId" = Some cid ->
     handleMessage now (Some frame) s =
       (tt, if truthy cid then set_connectionId (Some cid) s else s, [OnMessage frame])) /\
  (is_string ev "connected" = true ->
     forall data, get_prop frame "data" = Some data ->
     (data = JNull \/ data = JUndefined) ->
     handleMessage now (Some frame) s = (tt, s, [OnError "Failed to parse message"]))).
Proof.
  split.
  { intros [-> | ->]; reflexivity. }
  intros ev Hev.
  assert (Hp : is_string ev "connected" = true -> is_string ev "pong" = false).
  { intros Hc. destruct ev; try reflexivity; simpl in Hc |- *.
    apply String.eqb_eq in Hc; subst; reflexivity. }
  unfold handleMessage. rewrite Hev.
  split; [| split; [| split]].
  - intros ->. reflexivity.
  - intros -> ->. reflexivity.
  - intros Hc data cid Hd Hcid.
    rewrite (Hp Hc), Hc, Hd, Hcid. destruct (truthy cid); reflexivity.
  - intros Hc data Hd [-> | ->]; rewrite (Hp Hc), Hc, Hd; reflexivity.
Qed.

(** Witness of [handleMessage_parsed_frames]: a [null] frame, and a
    ['connected'] frame carrying a connection id. *)
Lemma handleMessage_parsed_frames_witness :
  handleMessage 5 (Some JNull) (initial 0) =
    (tt, initial 0, [OnError "Failed to parse message"]) /\
  handleMessage 5 (Some (JObj [("event", JStr "connected");
                               ("data", JObj [("connectionId", JStr "c-1")])]))
    (initial 0) =
  (tt, set_connectionId (Some (JStr "c-1")) (initial 0),
   [OnMessage (JObj [("event", JStr "connected");
                     ("data", JObj [("connectionId", JStr "c-1")])])]).
Proof.
  split.
  - exact (proj1 (handleMessage_parsed_frames 5 (initial 0) JNull) (or_introl eq_refl)).
  - exact (proj1 (proj2 (proj2 (proj2 (handleMessage_parsed_frames 5 (initial 0)
      (JObj [("event", JStr "connected"); ("data", JObj [("connectionId", JStr "c-1")])]))
      (JStr "connected") eq_refl))) eq_refl _ _ eq_refl eq_refl).
Defined.

(** C10 counterexample: the frames [{"event":"connected"}] and [null]
    parse, yet neither reaches [onMessage]: reading [data.connectionId]
    of a missing [data], or [event] of [null], throws, and the client
    reports a parse failure instead. *)
Lemma parsed_frames_not_forwarded :
  handleMessage 5 (Some (JObj [("event", JStr "connected")])) (initial 0) =
    (tt, initial 0, [OnError "Failed to parse message"]) /\
  handleMessage 5 (Some JNull) (initial 0) =
    (tt, initial 0, [OnError "Failed to parse message"]).
Proof. split; reflexivity. Qed.

(** The effects that belong to a reconnect attempt. *)
Definition reconnect_effect (e : Effect) : bool :=
  match e with OnReconnecting _ | ScheduleReconnect _ => true | _ => false end.

Section Reconnect.
Variable opts : Options.

Definition retry_delay (n : Z) : Q :=
  Math_min (reconnectInterval opts * Qpower (3 # 2) (n - 1)) 30000.

(** Effect logs in which every [onReconnecting(n)] has [1 <= n <= max]
    and is followed at once by the arming of the timer with the
    delay of attempt [n]. *)
Inductive paired : list Effect -> Prop :=
| paired_nil : paired []
| paired_attempt (n : Z) (rest : list Effect) :
    1 <= n <= maxReconnectAttempts opts -> paired rest ->
    paired (OnReconnecting n :: ScheduleReconnect (retry_delay n) :: rest)
| paired_other (e : Effect) (rest : list Effect) :
    reconnect_effect e = false -> paired rest -> paired (e :: rest).

Lemma paired_app (l1 l2 : list Effect) : paired l1 -> paired l2 -> paired (l1 ++ l2).
Proof.
  intros H1 H2. induction H1; simpl; [exact H2 | |]; constructor; assumption.
Qed.

Lemma paired_split (l : list Effect) :
  paired l ->
  forall pre n post, l = pre ++ OnReconnecting n :: post ->
  1 <= n <= maxReconnectAttempts opts /\
  exists post', post = ScheduleReconnect (retry_delay n) :: post'.
Proof.
  induction 1 as [| n0 rest Hn Hp IH | e rest He Hp IH]; intros pre n post E.
  - destruct pre; discriminate.
  - destruct pre as [| x [| y pre]]; simpl in E; injection E; intros; subst.
    + split; [exact Hn | eexists; reflexivity].
    + discriminate.
    + eapply IH; first [eassumption | reflexivity | symmetry; eassumption].
  - destruct pre as [| x pre]; simpl in E; injection E; intros; subst.
    + discriminate He.
    + eapply IH; first [eassumption | reflexivity | symmetry; eassumption].
Qed.

Lemma paired_scheduled (l : list Effect) (d : Q) :
  paired l -> In (ScheduleReconnect d) l ->
  exists n, 1 <= n <= maxReconnectAttempts opts /\ d = retry_delay n.
Proof.
  induction 1 as [| n0 rest Hn Hp IH | e rest He Hp IH]; simpl; intros Hin.
  - contradiction.
  - destruct Hin as [E | [E | Hin]]; [discriminate | injection E as <-; eauto | eauto].
  - destruct Hin as [-> | Hin]; [discriminate He | eauto].
Qed.

Definition attempts_ok (s : ClientState) : Prop :=
  0 <= reconnectAttempts s <= maxReconnectAttempts opts.

(** A method keeps the attempt counter within bounds and logs only
    well-formed reconnect attempts. *)
Definition Good {A} (m : M A) : Prop :=
  forall s, attempts_ok s ->
  match m s with (_, s', es) => attempts_ok s' /\ paired es end.

Lemma Good_ret {A} (a : A) : Good (mret a).
Proof. intros s Hs. split; [exact Hs | constructor]. Qed.

Lemma Good_bind {A B} (m : M A) (k : A -> M B) :
  Good m -> (forall a, Good (k a)) -> Good (m ≫= k).
Proof.
  intros Hm Hk s Hs. unfold mbind, M_bind.
  specialize (Hm s Hs). destruct (m s) as [[a s1] e1]. destruct Hm as [Hs1 He1].
  specialize (Hk a s1 Hs1). destruct (k a s1) as [[b s2] e2]. destruct Hk as [Hs2 He2].
  split; [exact Hs2 | apply paired_app; assumption].
Qed.

Lemma Good_get : Good get.
Proof. intros s Hs. split; [exact Hs | constructor]. Qed.

Lemma Good_modify (f : ClientState -> ClientState) :
  (forall s, reconnectAttempts (f s) = reconnectAttempts s) -> Good (modify f).
Proof. intros Hf s Hs. split; [unfold attempts_ok in *; rewrite Hf; exact Hs | constructor]. Qed.

Lemma Good_emit (e : Effect) : reconnect_effect e = false -> Good (emit e).
Proof. intros He s Hs. split; [exact Hs | repeat constructor; exact He]. Qed.

Hypothesis max_nonneg : 0 <= maxReconnectAttempts opts.

Lemma Good_reset : Good (modify (set_attempts 0)).
Proof. intros s Hs. split; [unfold attempts_ok; simpl; lia | constructor]. Qed.

Lemma Good_attemptReconnect : Good (attemptReconnect opts).
Proof.
  intros s Hs. unfold attemptReconnect, mbind, M_bind, get, modify, emit. cbn.
  destruct (Z.leb_spec (maxReconnectAttempts opts) (reconnectAttempts s)); cbn.
  - split; [exact Hs | repeat constructor].
  - unfold attempts_ok in *. simpl. split; [lia |].
    apply (paired_attempt (reconnectAttempts s + 1) []); [lia | constructor].
Qed.
End Reconnect.

Create HintDb good.
#[local] Hint Resolve Good_ret Good_get Good_reset Good_attemptReconnect : good.
#[local] Hint Extern 2 (Good _ (modify _)) => apply Good_modify; intros; reflexivity : good.
#[local] Hint Extern 2 (Good _ (emit _)) => apply Good_emit; reflexivity : good.

Ltac good :=
  repeat first
    [ solve [eauto with good]
    | progress (apply Good_bind; intros)
    | match goal with
      | |- Good _ (if ?b then _ else _) => destruct b
      | |- Good _ (match ?x with _ => _ end) => destruct x
      end ].

Section Methods.
Variable opts : Options.
Hypothesis max_nonneg : 0 <= maxReconnectAttempts opts.

Lemma Good_send (m : ClientMessage) : Good opts (send m).
Proof. unfold send. good. Qed.
#[local] Hint Resolve Good_send : good.

Lemma Good_flush_loop (fuel : nat) : Good opts (flush_loop fuel).
Proof. induction fuel as [| fuel IH]; simpl; good. Qed.
#[local] Hint Resolve Good_flush_loop : good.

Lemma Good_handleOpen (now : Z) (uuid : string) : Good opts (handleOpen now uuid).
Proof. unfold handleOpen, startHeartbeat, flushMessageQueue. good. Qed.

Lemma Good_connect (ok : bool) : Good opts (connect opts ok).
Proof. unfold connect. good. Qed.
#[local] Hint Resolve Good_connect : good.

Lemma Good_handleClose : Good opts (handleClose opts).
Proof. unfold handleClose, cleanup. good. Qed.

Lemma Good_handleMessage (now : Z) (parsed : option json) :
  Good opts (handleMessage now parsed).
Proof.
  unfold handleMessage. destruct parsed as [message |]; [| good].
  destruct (get_prop message "event") as [ev |]; [| good].
  destruct (is_string ev "pong"); [good |].
  destruct (is_string ev "connected");
    [destruct (get_prop message "data") as [data |];
     [destruct (get_prop data "connectionId") as [cid |]; [destruct (truthy cid) |] |] |];
    cbv beta iota zeta; good.
Qed.

Lemma Good_handle (i : Input) : Good opts (handle opts i).
Proof.
  destruct i as [e now uuid]; destruct e; unfold handle; cbn [ev at_time fresh_id].
  - apply Good_connect.
  - unfold disconnect, cleanup. good.
  - unfold subscribe. good.
  - unfold unsubscribe. good.
  - good.
  - apply Good_handleOpen.
  - apply Good_handleClose.
  - unfold handleError. good.
  - apply Good_handleMessage.
  - unfold heartbeatTick, ping. good.
  - good.
Qed.

Lemma Good_run (inputs : list Input) : Good opts (run opts inputs).
Proof.
  induction inputs as [| i rest IH]; simpl; [apply Good_ret |].
  apply Good_bind; [apply Good_handle | intros; exact IH].
Qed.
End Methods.



(** The scenario ends at the ceiling: disconnected after five attempts,
    the sixth close reporting the failure. *)
Example retry_until_ceiling_ends_disconnected :
  match run DEFAULT_OPTIONS ClientScenarios.retry_until_ceiling (initial 0) with
  | (_, s', effects) =>
      state s' = disconnected /\ reconnectAttempts s' = 5 /\
      reconnect_pending s' = None /\
      last effects = Some (OnError "Max reconnection attempts reached")
  end.
Proof. vm_compute. repeat split. Qed.

(** C2 (code bug): spec scenario 5 on the client. After connecting,
    subscribing to [{status, stats}] and losing the transport, the
    client is reconnecting with that subscription set and an empty
    offline queue. When the new socket opens, [flushMessageQueue]
    returns early on the empty queue, so no [subscribe] frame is sent:
    the first frame on the new connection is the application's. *)
Theorem reconnect_skips_resubscribe_on_empty_queue :
  match run DEFAULT_OPTIONS ClientScenarios.scenario5_drop (initial 0) with
  | (_, s1, _) =>
      state s1 = reconnecting /\ subscriptions s1 = ["status"; "stats"] /\
      messageQueue s1 = [] /\
      match run DEFAULT_OPTIONS ClientScenarios.scenario5_reconnect s1 with
      | (_, s2, effects) =>
          state s2 = connected /\ subscriptions s2 = ["status"; "stats"] /\
          effects = [OnOpen; Sent ClientScenarios.app_frame]
      end
  end.
Proof. vm_compute. repeat split. Qed.

Lemma flush_loop_sends (n : nat) (s : ClientState) :
  state s = connected -> ws s = Some true -> n = length (messageQueue s) ->
  flush_loop n s = (tt, set_queue [] s, map Sent (messageQueue s)).
Proof.
  destruct s as [w st att rp hb lp q subs cid]; cbn [state ws messageQueue].
  intros -> -> ->. revert q.
  induction q as [| m q IH]; [reflexivity |].
  cbn [length flush_loop].
  unfold send, mbind, M_bind, get, modify, emit. cbn.
  rewrite bool_decide_eq_true_2 by reflexivity.
  unfold set_queue in *. cbn. rewrite IH. reflexivity.
Qed.

(** When the socket opens with frames queued offline and a non-empty
    subscription set, the client becomes connected with the counter
    reset and the heartbeat armed, writes the queued frames in FIFO
    order, then one [subscribe] frame naming the whole subscription
    set, then calls [onOpen]. *)
Theorem handleOpen_flushes_then_resubscribes (now : Z) (uuid : string) (s : ClientState) :
  messageQueue s <> [] -> subscriptions s <> [] ->
  match handleOpen now uuid s with
  | (_, s', effects) =>
      state s' = connected /\ reconnectAttempts s' = 0 /\ heartbeat_running s' = true /\
      messageQueue s' = [] /\
      effects = map Sent (messageQueue s) ++
                [Sent (mkClientMessage uuid "config" now "subscribe"
                         (Some (types_payload (subscriptions s)))); OnOpen]
  end.
Proof.
  destruct s as [w st att rp hb lp q subs cid]; cbn [messageQueue subscriptions].
  intros Hq Hsubs.
  unfold handleOpen, startHeartbeat, flushMessageQueue, mbind, M_bind, get, modify, emit.
  cbn -[flush_loop].
  destruct q as [| m q]; [contradiction |].
  rewrite flush_loop_sends by reflexivity.
  unfold send, mbind, M_bind, get, modify, emit, set_queue, set_heartbeat, set_pong,
    set_attempts, set_state, set_ws. cbn.
  destruct subs as [| t subs]; [contradiction |]. cbn.
  rewrite bool_decide_eq_true_2 by reflexivity. cbn.
  repeat split. rewrite <- app_assoc. reflexivity.
Qed.

(** Witness of [handleOpen_flushes_then_resubscribes]: one queued frame,
    subscriptions [{status}]. *)
Lemma handleOpen_flushes_then_resubscribes_witness :
  match handleOpen 7 "id" (set_subscriptions ["status"]
                             (set_queue [ClientScenarios.app_frame] (initial 0))) with
  | (_, _, effects) =>
      effects = [Sent ClientScenarios.app_frame;
                 Sent (mkClientMessage "id" "config" 7 "subscribe"
                         (Some (types_payload ["status"]))); OnOpen]
  end.
Proof.
  pose proof (handleOpen_flushes_then_resubscribes 7 "id"
                (set_subscriptions ["status"] (set_queue [ClientScenarios.app_frame] (initial 0))))
    as H.
  destruct (handleOpen 7 "id" _) as [[u s'] es].
  exact (proj2 (proj2 (proj2 (proj2 (H ltac:(discriminate) ltac:(discriminate)))))).
Defined.

Lemma set_queue_set_queue (a b : list ClientMessage) (s : ClientState) :
  set_queue a (set_queue b s) = set_queue a s.
Proof. destruct s; reflexivity. Qed.

Lemma send_offline (m : ClientMessage) (s : ClientState) :
  state s <> connected \/ ws s <> Some true ->
  send m s = (false, set_queue (messageQueue s ++ [m]) s, []).
Proof.
  intros H.
  assert (Hc : ConnectionState_eqb (state s) connected && bool_decide (ws s = Some true) = false).
  { apply andb_false_iff. destruct H as [H | H]; [left | right].
    - destruct (state s); [reflexivity | reflexivity | contradiction | reflexivity].
    - apply bool_decide_eq_false_2. exact H. }
  unfold send, mbind, M_bind, get, modify, emit. cbn. rewrite Hc. reflexivity.
Qed.

(** [send] events at time [t] with id [id]. *)
Definition send_inputs (t : Z) (id : string) (ms : list ClientMessage) : list Input :=
  map (fun m => mkInput (EvSend m) t id) ms.

Lemma run_sends_offline (opts : Options) (t : Z) (id : string) (ms : list ClientMessage)
    (rest : list Input) (s : ClientState) :
  state s <> connected \/ ws s <> Some true ->
  run opts (send_inputs t id ms ++ rest) s = run opts rest (set_queue (messageQueue s ++ ms) s).
Proof.
  revert s. induction ms as [| m ms IH]; intros s Hoff.
  - cbn. rewrite app_nil_r. destruct s; reflexivity.
  - cbn [send_inputs map app run]. unfold handle at 1. cbn [ev].
    unfold mbind at 1, M_bind at 1. unfold mbind at 1, M_bind at 1.
    rewrite send_offline by exact Hoff. cbn.
    rewrite IH by (destruct s; exact Hoff).
    rewrite set_queue_set_queue.
    replace (messageQueue (set_queue _ s)) with (messageQueue s ++ [m]) by (destruct s; reflexivity).
    rewrite <- app_assoc. cbn.
    destruct (run opts rest _) as [[u s'] e]. reflexivity.
Qed.

Lemma handleOpen_queued (now : Z) (uuid : string) (s : ClientState) :
  messageQueue s <> [] ->
  match handleOpen now uuid s with
  | (_, s', effects) =>
      state s' = connected /\ messageQueue s' = [] /\
      effects = map Sent (messageQueue s) ++
                match subscriptions s with
                | [] => []
                | subs => [Sent (mkClientMessage uuid "config" now "subscribe"
                                   (Some (types_payload subs)))]
                end ++ [OnOpen]
  end.
Proof.
  destruct s as [w st att rp hb lp q subs cid]; cbn [messageQueue subscriptions].
  intros Hq.
  unfold handleOpen, startHeartbeat, flushMessageQueue, mbind, M_bind, get, modify, emit.
  cbn -[flush_loop].
  destruct q as [| m q]; [contradiction |].
  rewrite flush_loop_sends by reflexivity.
  unfold send, mbind, M_bind, get, modify, emit, set_queue, set_heartbeat, set_pong,
    set_attempts, set_state, set_ws. cbn.
  destruct subs as [| t subs]; cbn.
  - repeat split. rewrite app_nil_r. reflexivity.
  - rewrite bool_decide_eq_true_2 by reflexivity. cbn.
    repeat split. rewrite <- app_assoc. reflexivity.
Qed.

(** Frames sent while the socket is not open are neither written nor
    lost: each [send] returns [false] and appends the frame to the
    offline queue. When the socket then opens, the queued frames are
    written in the order they were sent, followed by one [subscribe]
    frame naming the subscription set when it is not empty, then
    [onOpen] is called; the queue is left empty. *)
Theorem offline_sends_flushed_in_order (opts : Options) (t now : Z) (id uuid : string)
    (ms : list ClientMessage) (s : ClientState) :
  state s <> connected \/ ws s <> Some true ->
  messageQueue s ++ ms <> [] ->
  (forall m, send m s = (false, set_queue (messageQueue s ++ [m]) s, [])) /\
  match run opts (send_inputs t id ms ++ [mkInput EvOpen now uuid]) s with
  | (_, s', effects) =>
      state s' = connected /\ messageQueue s' = [] /\
      effects = map Sent (messageQueue s ++ ms) ++
                match subscriptions s with
                | [] => []
                | subs => [Sent (mkClientMessage uuid "config" now "subscribe"
                                   (Some (types_payload subs)))]
                end ++ [OnOpen]
  end.
Proof.
  intros Hoff Hne. split; [intros m; apply send_offline, Hoff |].
  rewrite run_sends_offline by exact Hoff.
  pose proof (handleOpen_queued now uuid (set_queue (messageQueue s ++ ms) s)) as H.
  cbn [run handle ev at_time fresh_id]. unfold mbind at 1, M_bind at 1.
  destruct (handleOpen now uuid _) as [[u s'] e].
  destruct s. cbn in H |- *. rewrite app_nil_r. exact (H Hne).
Qed.

(** Witness of [offline_sends_flushed_in_order]: a fresh client sends one
    frame, then its socket opens. *)
Lemma offline_sends_flushed_in_order_witness :
  match run DEFAULT_OPTIONS (send_inputs 1 "a" [ClientScenarios.app_frame] ++
                             [mkInput EvOpen 2 "b"]) (initial 0) with
  | (_, s', effects) =>
      state s' = connected /\ messageQueue s' = [] /\
      effects = [Sent ClientScenarios.app_frame; OnOpen]
  end.
Proof.
  destruct (offline_sends_flushed_in_order DEFAULT_OPTIONS 1 2 "a" "b"
              [ClientScenarios.app_frame] (initial 0)) as [_ H];
    [left; discriminate | discriminate |].
  exact H.
Defined.

Lemma set_add_In (x y : string) (l : list string) : In y (set_add x l) <-> In y l \/ y = x.
Proof.
  unfold set_add. destruct (existsb (String.eqb x) l) eqn:E.
  - apply existsb_exists in E as (z & Hz & Ez). apply String.eqb_eq in Ez. subst z.
    split; [auto | intros [H | ->]; assumption].
  - rewrite in_app_iff. cbn. intuition.
Qed.

Lemma set_add_NoDup (x : string) (l : list string) : NoDup l -> NoDup (set_add x l).
Proof.
  unfold set_add. destruct (existsb (String.eqb x) l) eqn:E; [auto |]. intros Hl.
  apply NoDup_app. split; [exact Hl | split; [| apply NoDup_singleton]].
  intros y Hy Hy'. apply list_elem_of_singleton in Hy'. subst y.
  apply list_elem_of_In in Hy.
  assert (existsb (String.eqb x) l = true) by (apply existsb_exists; exists x; split;
    [exact Hy | apply String.eqb_refl]).
  congruence.
Qed.

Lemma set_delete_In (x y : string) (l : list string) : In y (set_delete x l) <-> In y l /\ y <> x.
Proof.
  unfold set_delete. rewrite <- !list_elem_of_In, list_elem_of_filter.
  destruct (String.eqb_spec y x); cbn; intuition.
Qed.

Lemma set_delete_NoDup (x : string) (l : list string) : NoDup l -> NoDup (set_delete x l).
Proof. unfold set_delete. apply NoDup_filter. Qed.

Lemma fold_set_add_In (types l : list string) (y : string) :
  In y (fold_left (fun l t => set_add t l) types l) <-> In y l \/ In y types.
Proof.
  revert l. induction types as [| t types IH]; intros l; cbn; [tauto |].
  rewrite IH, set_add_In. intuition.
Qed.

Lemma fold_set_add_NoDup (types l : list string) :
  NoDup l -> NoDup (fold_left (fun l t => set_add t l) types l).
Proof.
  revert l. induction types as [| t types IH]; intros l Hl; cbn; [exact Hl |].
  apply IH, set_add_NoDup, Hl.
Qed.

Lemma fold_set_delete_In (types l : list string) (y : string) :
  In y (fold_left (fun l t => set_delete t l) types l) <-> In y l /\ ~ In y types.
Proof.
  revert l. induction types as [| t types IH]; intros l; cbn; [tauto |].
  rewrite IH, set_delete_In. intuition.
Qed.

Lemma fold_set_delete_NoDup (types l : list string) :
  NoDup l -> NoDup (fold_left (fun l t => set_delete t l) types l).
Proof.
  revert l. induction types as [| t types IH]; intros l Hl; cbn; [exact Hl |].
  apply IH, set_delete_NoDup, Hl.
Qed.

(** [subscribe(types)] adds the types to the local set, keeping each
    member once, and [unsubscribe(types)] removes them. Nothing else of
    the client changes. While the client is not connected no frame is
    written; when it is connected over an open socket, one frame naming
    [types] (as given) is written; when it is connected but the socket is
    not open, [send] appends that frame to the offline queue instead. *)
Theorem subscribe_unsubscribe_local_set (now : Z) (uuid : string) (types : list string)
    (s : ClientState) :
  match subscribe now uuid types s with
  | (_, s', effects) =>
      (forall x, In x (subscriptions s') <-> In x (subscriptions s) \/ In x types) /\
      (NoDup (subscriptions s) -> NoDup (subscriptions s')) /\
      (state s <> connected -> effects = [] /\ s' = set_subscriptions (subscriptions s') s) /\
      (state s = connected -> ws s = Some true ->
         effects = [Sent (mkClientMessage uuid "config" now "subscribe"
                            (Some (types_payload types)))] /\
         s' = set_subscriptions (subscriptions s') s) /\
      (state s = connected -> ws s <> Some true ->
         effects = [] /\
         s' = set_queue (messageQueue s ++
                [mkClientMessage uuid "config" now "subscribe" (Some (types_payload types))])
                (set_subscriptions (subscriptions s') s))
  end /\
  match unsubscribe now uuid types s with
  | (_, s', effects) =>
      (forall x, In x (subscriptions s') <-> In x (subscriptions s) /\ ~ In x types) /\
      (NoDup (subscriptions s) -> NoDup (subscriptions s')) /\
      (state s <> connected -> effects = [] /\ s' = set_subscriptions (subscriptions s') s) /\
      (state s = connected -> ws s = Some true ->
         effects = [Sent (mkClientMessage uuid "config" now "unsubscribe"
                            (Some (types_payload types)))] /\
         s' = set_subscriptions (subscriptions s') s) /\
      (state s = connected -> ws s <> Some true ->
         effects = [] /\
         s' = set_queue (messageQueue s ++
                [mkClientMessage uuid "config" now "unsubscribe" (Some (types_payload types))])
                (set_subscriptions (subscriptions s') s))
  end.
Proof.
  destruct s as [w st att rp hb lp q subs cid].
  unfold subscribe, unsubscribe, send, mbind, M_bind, get, modify, emit, set_subscriptions.
  cbn [state ws messageQueue subscriptions reconnectAttempts reconnect_pending
       heartbeat_running lastPongTime connectionId].
  split.
  - destruct st; cbn; try case_bool_decide; cbn;
      (split; [intros ?; apply fold_set_add_In | split; [apply fold_set_add_NoDup |]]);
      (split; [| split]; intros; try contradiction; try discriminate; auto; congruence).
  - destruct st; cbn; try case_bool_decide; cbn;
      (split; [intros ?; apply fold_set_delete_In | split; [apply fold_set_delete_NoDup |]]);
      (split; [| split]; intros; try contradiction; try discriminate; auto; congruence).
Qed.

(** A method keeps the subscription set free of duplicates. *)
Definition KeepsSet {A} (m : M A) : Prop :=
  forall s, NoDup (subscriptions s) -> NoDup (subscriptions (snd (fst (m s)))).

Lemma KeepsSet_ret {A} (a : A) : KeepsSet (mret a).
Proof. intros s Hs. exact Hs. Qed.

Lemma KeepsSet_bind {A B} (m : M A) (k : A -> M B) :
  KeepsSet m -> (forall a, KeepsSet (k a)) -> KeepsSet (m ≫= k).
Proof.
  intros Hm Hk s Hs. unfold mbind, M_bind.
  specialize (Hm s Hs). destruct (m s) as [[a s1] e1]. cbn in Hm.
  specialize (Hk a s1 Hm). destruct (k a s1) as [[b s2] e2]. exact Hk.
Qed.

Lemma KeepsSet_get : KeepsSet get.
Proof. intros s Hs. exact Hs. Qed.

Lemma KeepsSet_emit (e : Effect) : KeepsSet (emit e).
Proof. intros s Hs. exact Hs. Qed.

Lemma KeepsSet_modify (f : ClientState -> ClientState) :
  (forall s, subscriptions (f s) = subscriptions s) -> KeepsSet (modify f).
Proof. intros Hf s Hs. cbn. rewrite Hf. exact Hs. Qed.

Create HintDb keeps_set.
#[local] Hint Resolve KeepsSet_ret KeepsSet_get KeepsSet_emit : keeps_set.
#[local] Hint Extern 2 (KeepsSet (modify _)) => apply KeepsSet_modify; intros; reflexivity : keeps_set.

Ltac keeps_set :=
  repeat first
    [ solve [eauto with keeps_set]
    | progress (apply KeepsSet_bind; intros)
    | match goal with
      | |- KeepsSet (if ?b then _ else _) => destruct b
      | |- KeepsSet (match ?x with _ => _ end) => destruct x
      end ].

Lemma KeepsSet_send (m : ClientMessage) : KeepsSet (send m).
Proof. unfold send. keeps_set. Qed.
#[local] Hint Resolve KeepsSet_send : keeps_set.

Lemma KeepsSet_flush_loop (fuel : nat) : KeepsSet (flush_loop fuel).
Proof. induction fuel as [| fuel IH]; simpl; keeps_set. Qed.
#[local] Hint Resolve KeepsSet_flush_loop : keeps_set.

Lemma KeepsSet_attemptReconnect (opts : Options) : KeepsSet (attemptReconnect opts).
Proof. unfold attemptReconnect. keeps_set. Qed.
#[local] Hint Resolve KeepsSet_attemptReconnect : keeps_set.

Lemma KeepsSet_connect (opts : Options) (ok : bool) : KeepsSet (connect opts ok).
Proof. unfold connect. keeps_set. Qed.
#[local] Hint Resolve KeepsSet_connect : keeps_set.

Lemma KeepsSet_handleMessage (now : Z) (parsed : option json) :
  KeepsSet (handleMessage now parsed).
Proof.
  unfold handleMessage. destruct parsed as [message |]; [| keeps_set].
  destruct (get_prop message "event") as [ev |]; [| keeps_set].
  destruct (is_string ev "pong"); [keeps_set |].
  destruct (is_string ev "connected");
    [destruct (get_prop message "data") as [data |];
     [destruct (get_prop data "connectionId") as [cid |]; [destruct (truthy cid) |] |] |];
    cbv beta iota zeta; keeps_set.
Qed.

Lemma KeepsSet_handle (opts : Options) (i : Input) : KeepsSet (handle opts i).
Proof.
  destruct i as [e now uuid]; destruct e; unfold handle; cbn [ev at_time fresh_id].
  - apply KeepsSet_connect.
  - unfold disconnect, cleanup. keeps_set.
  - intros s Hs. destruct s as [w st att rp hb lp q subs cid]. cbn in Hs.
    unfold subscribe, send, mbind, M_bind, get, modify, emit, set_subscriptions. cbn.
    destruct st; cbn; try destruct (bool_decide (w = Some true)); cbn; apply fold_set_add_NoDup, Hs.
  - intros s Hs. destruct s as [w st att rp hb lp q subs cid]. cbn in Hs.
    unfold unsubscribe, send, mbind, M_bind, get, modify, emit, set_subscriptions. cbn.
    destruct st; cbn; try destruct (bool_decide (w = Some true)); cbn; apply fold_set_delete_NoDup, Hs.
  - keeps_set.
  - unfold handleOpen, startHeartbeat, flushMessageQueue. keeps_set.
  - unfold handleClose, cleanup. keeps_set.
  - unfold handleError. keeps_set.
  - apply KeepsSet_handleMessage.
  - unfold heartbeatTick, ping. keeps_set.
  - keeps_set.
Qed.

(** Whatever happens to the client (calls, socket events, timers), its
    subscription set never holds a type twice, so the [subscribe] frame
    sent on reconnect names each type once. *)
Theorem run_subscriptions_no_duplicates (opts : Options) (inputs : list Input) (s : ClientState) :
  NoDup (subscriptions s) ->
  NoDup (subscriptions (snd (fst (run opts inputs s)))).
Proof.
  revert s. induction inputs as [| i rest IH]; intros s Hs; [exact Hs |].
  cbn [run]. unfold mbind at 1, M_bind at 1.
  pose proof (KeepsSet_handle opts i s Hs) as H1.
  destruct (handle opts i s) as [[u s1] e1]. cbn in H1.
  specialize (IH s1 H1). destruct (run opts rest s1) as [[u2 s2] e2]. exact IH.
Qed.

(** Witness of [run_subscriptions_no_duplicates]: a fresh client
    subscribing to [status] twice and to [stats] across a reconnect. *)
Lemma run_subscriptions_no_duplicates_witness :
  NoDup (subscriptions (snd (fst (run DEFAULT_OPTIONS
    (ClientScenarios.scenario5_drop ++
     [ClientScenarios.at_ (EvSubscribe ["status"; "status"]) 40] ++
     ClientScenarios.scenario5_reconnect) (initial 0))))).
Proof. apply run_subscriptions_no_duplicates. constructor. Defined.

(** The frame [{"event": "pong"}]. *)
Definition pong_frame : json := JObj [("event", JStr "pong")].



Import Stdlib.Strings.Ascii.

Lemma hex_digit_hex (v : Z) : 0 <= v < 16 -> is_hex_char (hex_digit v) = true.
Proof.
  intros Hv.
  assert (Hc : v = 0 \/ v = 1 \/ v = 2 \/ v = 3 \/ v = 4 \/ v = 5 \/ v = 6 \/ v = 7 \/
               v = 8 \/ v = 9 \/ v = 10 \/ v = 11 \/ v = 12 \/ v = 13 \/ v = 14 \/ v = 15) by lia.
  repeat destruct Hc as [-> | Hc]; [..| subst v]; reflexivity.
Qed.

Lemma hex_digit_variant (r : Z) : 0 <= r < 16 ->
  In (hex_digit (Z.lor (Z.land r 3) 8)) ["8"; "9"; "a"; "b"]%char.
Proof.
  intros Hr.
  assert (Hc : r = 0 \/ r = 1 \/ r = 2 \/ r = 3 \/ r = 4 \/ r = 5 \/ r = 6 \/ r = 7 \/
               r = 8 \/ r = 9 \/ r = 10 \/ r = 11 \/ r = 12 \/ r = 13 \/ r = 14 \/ r = 15) by lia.
  repeat destruct Hc as [-> | Hc]; [..| subst r]; cbn; tauto.
Qed.

Section UUID.
Variable rnd : nat -> Z.
Hypothesis rnd_range : forall k, 0 <= rnd k < 16.

(** Position by position, [uuid_fill] puts a hex digit for [x], one of
    [8], [9], [a], [b] for [y], and keeps every other template character. *)
Lemma uuid_fill_spec (t : list Ascii.ascii) (k : nat) :
  length (uuid_fill rnd k t) = length t /\
  forall i c, t !! i = Some c -> exists d, uuid_fill rnd k t !! i = Some d /\
    (c = "x"%char -> is_hex_char d = true) /\
    (c = "y"%char -> In d ["8"; "9"; "a"; "b"]%char) /\
    (c <> "x"%char -> c <> "y"%char -> d = c).
Proof.
  revert k. induction t as [| c t IH]; intros k; [split; [reflexivity | intros i c Hi; discriminate] |].
  cbn [uuid_fill].
  assert (Hstep : forall k' d, (c = "x"%char -> is_hex_char d = true) ->
            (c = "y"%char -> In d ["8"; "9"; "a"; "b"]%char) ->
            (c <> "x"%char -> c <> "y"%char -> d = c) ->
            length (d :: uuid_fill rnd k' t) = length (c :: t) /\
            forall i c', (c :: t) !! i = Some c' -> exists d', (d :: uuid_fill rnd k' t) !! i = Some d' /\
              (c' = "x"%char -> is_hex_char d' = true) /\
              (c' = "y"%char -> In d' ["8"; "9"; "a"; "b"]%char) /\
              (c' <> "x"%char -> c' <> "y"%char -> d' = c')).
  { intros k' d H1 H2 H3. destruct (IH k') as [IHl IHi]. split; [cbn; rewrite IHl; reflexivity |].
    intros [| i] c' Hi; cbn in Hi |- *; [injection Hi as <-; eauto | exact (IHi i c' Hi)]. }
  destruct (Ascii.eqb_spec c "x"%char) as [Ex | Nx];
    [| destruct (Ascii.eqb_spec c "y"%char) as [Ey | Ny]]; apply Hstep; intros; subst;
    try congruence; first [apply hex_digit_hex, rnd_range | apply hex_digit_variant, rnd_range].
Qed.
End UUID.

Lemma uuid_template_positions (i : nat) :
  (i < 36)%nat -> ~ In i [8; 13; 14; 18; 23]%nat ->
  uuid_template !! i = Some "x"%char \/ uuid_template !! i = Some "y"%char.
Proof.
  intros Hi Hn.
  do 36 (destruct i as [| i];
         [first [left; reflexivity | right; reflexivity | exfalso; apply Hn; cbn; tauto] |]).
  lia.
Qed.

(** [generateUUID()] (given random draws in [0, 16)) returns a version-4
    UUID string: 36 characters, [-] at positions 8, 13, 18 and 23, [4] at
    position 14, one of [8], [9], [a], [b] at position 19, and a lowercase
    hex digit everywhere else. *)
Theorem generateUUID_format (rnd : nat -> Z) :
  (forall k, 0 <= rnd k < 16) ->
  let u := String.list_ascii_of_string (generateUUID rnd) in
  length u = 36%nat /\
  (forall i, In i [8; 13; 18; 23]%nat -> u !! i = Some "-"%char) /\
  u !! 14%nat = Some "4"%char /\
  (exists d, u !! 19%nat = Some d /\ In d ["8"; "9"; "a"; "b"]%char) /\
  (forall i d, u !! i = Some d -> ~ In i [8; 13; 14; 18; 23]%nat -> is_hex_char d = true).
Proof.
  intros Hr. cbv zeta. unfold generateUUID.
  rewrite String.list_ascii_of_string_of_list_ascii.
  destruct (uuid_fill_spec rnd Hr uuid_template 0) as [Hl Hi].
  assert (Hkeep : forall i c, uuid_template !! i = Some c -> c <> "x"%char -> c <> "y"%char ->
            uuid_fill rnd 0 uuid_template !! i = Some c).
  { intros i c Ht Hx Hy. destruct (Hi i c Ht) as (d & Hd & _ & _ & Hc).
    rewrite Hd, (Hc Hx Hy). reflexivity. }
  split; [rewrite Hl; reflexivity |]. split; [| split; [| split]].
  - intros i Hin. cbn in Hin.
    repeat destruct Hin as [<- | Hin]; [..| contradiction];
      apply Hkeep; first [reflexivity | discriminate].
  - apply Hkeep; first [reflexivity | discriminate].
  - destruct (Hi 19%nat "y"%char eq_refl) as (d & Hd & _ & Hy & _). eauto.
  - intros i d Hd Hn.
    assert (Hlt : (i < 36)%nat).
    { apply lookup_lt_Some in Hd. rewrite Hl in Hd. exact Hd. }
    destruct (uuid_template_positions i Hlt Hn) as [Ht | Ht];
      destruct (Hi i _ Ht) as (d' & Hd' & Hx & Hy & _); rewrite Hd in Hd'; injection Hd' as <-.
    + apply Hx. reflexivity.
    + specialize (Hy eq_refl). cbn in Hy.
      repeat destruct Hy as [<- | Hy]; [..| contradiction]; reflexivity.
Qed.

(** Witness of [generateUUID_format]: every draw is [11]. *)
Lemma generateUUID_format_witness :
  let u := String.list_ascii_of_string (generateUUID (fun _ => 11)) in
  length u = 36%nat /\
  (forall i, In i [8; 13; 18; 23]%nat -> u !! i = Some "-"%char) /\
  u !! 14%nat = Some "4"%char /\
  (exists d, u !! 19%nat = Some d /\ In d ["8"; "9"; "a"; "b"]%char) /\
  (forall i d, u !! i = Some d -> ~ In i [8; 13; 14; 18; 23]%nat -> is_hex_char d = true).
Proof. apply (generateUUID_format (fun _ => 11)). intros _. lia. Defined.

End ClientFacts.
